(** * The API server of the daemon: routing table, dispatch adapter,
      listener bindings.

    A shallow embedding of the package [server]: [Server], [HTTPServer],
    [makeHTTPHandler], [createMux], [Close], [serveAPI] and [Wait]. Go
    values are modelled as follows.

    - [string] is a Go string (a sequence of bytes).
    - A Go [error] interface value is [option error]: [None] is [nil], and
      a non-nil error is characterised by its [Error()] message and by what
      the packages [api/errors] and [httputils] compute from it.
    - A Go [map[string]string] value is [option (gmap string string)]:
      [None] is the nil map.
    - What a handler does to its [http.ResponseWriter] and to the logger is
      the list of [event]s it emits, in order. *)

From stdpp Require Import base list strings gmap.
From Stdlib Require Import ZArith.

(** ** Strings *)

(** [strings.Contains s substr]: [substr] occurs somewhere within [s]. *)
Fixpoint Contains (s substr : string) : bool :=
  String.prefix substr s ||
  match s with
  | EmptyString => false
  | String _ s' => Contains s' substr
  end.

(** ** Effects: log lines and writes to the response *)

Inductive level := ErrorLevel | InfoLevel | DebugLevel.

Inductive logArg (E : Type) :=
| AStr (s : string)
| AErr (e : E).
Arguments AStr {E} s.
Arguments AErr {E} e.

Inductive body :=
| Plain (text : string)
| ErrorResponse (code : Z) (message : string).

Inductive event (E : Type) :=
| Logf (lvl : level) (format : string) (args : list (logArg E))
| Logp (lvl : level) (args : list (logArg E))
| WriteHeader (statusCode : Z)
| Write (b : body).
Arguments Logf {E} lvl format args.
Arguments Logp {E} lvl args.
Arguments WriteHeader {E} statusCode.
Arguments Write {E} b.

(** ** net/http *)

Module http.

Record Request := {
  Method : string;
  URL_Path : string;
  Header : gmap string string;
  (* the path variables the router stored for this request, read back by
     [mux.Vars]; [None] when nothing was stored *)
  muxVars : option (gmap string string)
}.

(** [r.Header.Get(key)]: the empty string when the header is absent. *)
Definition Header_Get (r : Request) (key : string) : string :=
  default "" (Header r !! key).

Definition StatusInternalServerError : Z := 500%Z.
Definition StatusNotFound : Z := 404%Z.

(** [http.NotFound]: the plain transport-level 404 reply. *)
Definition NotFound {E} (r : Request) : list (event E) :=
  [WriteHeader StatusNotFound; Write (Plain "404 page not found")].

Definition withVars (r : Request) (vs : gmap string string) : Request :=
  {| Method := Method r; URL_Path := URL_Path r; Header := Header r;
     muxVars := Some vs |}.

End http.

(** ** The packages [api/errors] and [api/server/httputils]

    Their sources are not part of this development; the server code is
    verified against this interface. *)

Class HttpUtils := {
  error : Type;
  Error : error → string;
  Errorf : string → error;
  NewRequestNotFoundError : error → error;
  GetHTTPErrorStatusCode : error → Z;
  MakeErrorHandler : error → http.Request → list (event error)
}.

(** [http.HandlerFunc], [httputils.APIFunc] and [middleware.Middleware]. *)

Definition HandlerFunc `{HttpUtils} : Type :=
  http.Request → list (event error).

Record Context := { UAString : string }.

Definition APIFunc `{HttpUtils} : Type :=
  Context → http.Request → option (gmap string string) →
  list (event error) * option error.

Definition Middleware `{HttpUtils} : Type := APIFunc → APIFunc.

(** ** api/server/router *)

Module router.

Record Route `{HttpUtils} := {
  Handler : APIFunc;
  Method : string;
  Path : string
}.

Record Router `{HttpUtils} := { Routes : list Route }.

End router.

(** ** The routing table (github.com/gorilla/mux) *)

Module mux.

Record Route `{HttpUtils} := {
  tpl : string;
  (* [None]: no method matcher was added to the route *)
  methods : option (list string);
  handler : HandlerFunc
}.

Record Router `{HttpUtils} := {
  routes : list Route;
  NotFoundHandler : option HandlerFunc
}.

Definition NewRouter `{HttpUtils} : Router :=
  {| routes := []; NotFoundHandler := None |}.

Definition Vars (r : http.Request) : option (gmap string string) :=
  http.muxVars r.

(** [m.Path(tpl).Methods(method).Handler(f)] appends one route to [m]. *)
Definition PathMethodsHandler `{HttpUtils}
    (m : Router) (t : string) (method : string) (f : HandlerFunc) : Router :=
  {| routes := routes m ++ [{| tpl := t; methods := Some [method]; handler := f |}];
     NotFoundHandler := NotFoundHandler m |}.

(** [m.HandleFunc(tpl, f)] appends a route without a method matcher. *)
Definition HandleFunc `{HttpUtils}
    (m : Router) (t : string) (f : HandlerFunc) : Router :=
  {| routes := routes m ++ [{| tpl := t; methods := None; handler := f |}];
     NotFoundHandler := NotFoundHandler m |}.

(** [m.NotFoundHandler = h]. *)
Definition setNotFoundHandler `{HttpUtils} (m : Router) (h : HandlerFunc) : Router :=
  {| routes := routes m; NotFoundHandler := Some h |}.

(** How a path template and a method list match a request is the
    router library's business. *)
Class Matcher := {
  pathMatch : string → string → option (gmap string string);
  methodsMatch : list string → string → bool
}.

Definition routeMatch `{HU : HttpUtils} `{MT : Matcher}
    (rt : Route) (r : http.Request) : option (gmap string string) :=
  if match methods rt with
     | None => true
     | Some ms => methodsMatch ms (http.Method r)
     end
  then pathMatch (tpl rt) (http.URL_Path r)
  else None.

Fixpoint Match `{HU : HttpUtils} `{MT : Matcher}
    (rts : list Route) (r : http.Request) : option (Route * gmap string string) :=
  match rts with
  | [] => None
  | rt :: rest =>
      match routeMatch rt r with
      | Some vs => Some (rt, vs)
      | None => Match rest r
      end
  end.

(** Modelled from the spec: dispatch through the routing table, whose
    implementation (the vendored router library) is missing. The
    first registered route that matches the request answers it
    (section 4.4), with the matched path variables stored for the handler;
    a request that matches no route goes to the table's not-found handler,
    and to the transport's plain 404 when none was installed. *)
Definition ServeHTTP `{HU : HttpUtils} `{MT : Matcher}
    (m : Router) (r : http.Request) : list (event error) :=
  match Match (routes m) r with
  | Some (rt, vs) => handler rt (http.withVars r vs)
  | None =>
      match NotFoundHandler m with
      | Some h => h r
      | None => http.NotFound r
      end
  end.

End mux.

(** ** package server *)

(** [versionMatcher] defines a variable matcher to be parsed by the router
    when a request is about to be served. *)
Definition versionMatcher : string := "/v{version:[0-9.]+}".

(** [Config] provides the configuration for the API server. (Its TLS
    configuration, a pointer the server code never reads, is left out.) *)
Record Config := {
  Logging : bool;
  EnableCors : bool;
  CorsHeaders : string;
  Version : string;
  SocketGroup : string
}.

(** A [net.Listener]: its identity and the address it is bound to. *)
Record Listener := { l_id : nat; l_Addr : string }.

(** [HTTPServer]: an http server and its listener. *)
Record HTTPServer := { srv_Addr : string; l : Listener }.

Record Server `{HttpUtils} := {
  cfg : Config;
  servers : list HTTPServer;
  routers : list router.Router;
  routerSwapper : option mux.Router;
  middlewares : list Middleware
}.

Section server.

Context `{HU : HttpUtils}.

(** [handlerWithGlobalMiddlewares] is defined in another file of the
    package; the adapter is verified for any such wrapper. *)
Variable handlerWithGlobalMiddlewares : Server → APIFunc → APIFunc.

Definition New (c : Config) : Server :=
  {| cfg := c; servers := []; routers := []; routerSwapper := None;
     middlewares := [] |}.

Definition UseMiddleware (s : Server) (m : Middleware) : Server :=
  {| cfg := cfg s; servers := servers s; routers := routers s;
     routerSwapper := routerSwapper s;
     middlewares := middlewares s ++ [m] |}.

Definition Accept (s : Server) (addr : string) (listeners : list Listener) : Server :=
  {| cfg := cfg s;
     servers := fold_left
                  (λ acc listener, acc ++ [{| srv_Addr := addr; l := listener |}])
                  listeners (servers s);
     routers := routers s;
     routerSwapper := routerSwapper s;
     middlewares := middlewares s |}.

(** *** makeHTTPHandler *)

(** The [vars] variable of the adapter after its nil test. *)
Definition handlerVars (r : http.Request) : option (gmap string string) :=
  match mux.Vars r with
  | None => Some ∅
  | Some vs => Some vs
  end.

Definition errFormatOf (statusCode : Z) : string :=
  if (statusCode =? http.StatusInternalServerError)%Z then "%+v" else "%v".

Definition makeHTTPHandler (s : Server) (handler : APIFunc) : HandlerFunc :=
  λ r,
    let ctx := {| UAString := http.Header_Get r "User-Agent" |} in
    let handlerFunc := handlerWithGlobalMiddlewares s handler in
    let vars := handlerVars r in
    let '(out, err) := handlerFunc ctx r vars in
    match err with
    | None => out
    | Some err =>
        let statusCode := GetHTTPErrorStatusCode err in
        let errFormat := errFormatOf statusCode in
        out
        ++ [Logf ErrorLevel ("Handler for %s %s returned error: " +:+ errFormat)
              [AStr (http.Method r); AStr (http.URL_Path r); AErr err]]
        ++ MakeErrorHandler err r
    end.

(** *** createMux *)

Definition registerRoute (s : Server) (m : mux.Router) (r : router.Route) : mux.Router :=
  let f := makeHTTPHandler s (router.Handler r) in
  let m := mux.PathMethodsHandler m (versionMatcher +:+ router.Path r) (router.Method r) f in
  mux.PathMethodsHandler m (router.Path r) (router.Method r) f.

Definition notFoundErr : error :=
  NewRequestNotFoundError (Errorf "page not found").

(** [createMux] initializes the main router the server uses. (Its two
    debug log lines are not modelled.) *)
Definition createMux (s : Server) : mux.Router :=
  let m := mux.NewRouter in
  let m :=
    fold_left
      (λ m apiRouter, fold_left (registerRoute s) (router.Routes apiRouter) m)
      (routers s) m in
  let err := notFoundErr in
  let notFoundHandler := MakeErrorHandler err in
  let m := mux.HandleFunc m (versionMatcher +:+ "/{path:.*}") notFoundHandler in
  mux.setNotFoundHandler m notFoundHandler.

(** Every route of every registered router, in registration order. *)
Definition allRoutes (s : Server) : list router.Route :=
  concat (map router.Routes (routers s)).

(** The two table entries a route is expected to give, and the
    not-found entry; the theorems on [createMux] are stated with them. *)
Definition versionedEntry (s : Server) (r : router.Route) : mux.Route :=
  {| mux.tpl := versionMatcher +:+ router.Path r;
     mux.methods := Some [router.Method r];
     mux.handler := makeHTTPHandler s (router.Handler r) |}.

Definition bareEntry (s : Server) (r : router.Route) : mux.Route :=
  {| mux.tpl := router.Path r;
     mux.methods := Some [router.Method r];
     mux.handler := makeHTTPHandler s (router.Handler r) |}.

Definition notFoundEntry : mux.Route :=
  {| mux.tpl := versionMatcher +:+ "/{path:.*}";
     mux.methods := None;
     mux.handler := MakeErrorHandler notFoundErr |}.

(** *** InitRouter, DisableProfiler, EnableProfiler *)

(** Modelled from the spec: [profilerSetup], which is missing, adds the
    diagnostics routes to a table under construction. *)
Variable profilerRoutes : list mux.Route.

Definition addRoute (m : mux.Router) (rt : mux.Route) : mux.Router :=
  {| mux.routes := mux.routes m ++ [rt];
     mux.NotFoundHandler := mux.NotFoundHandler m |}.

Definition profilerSetup (m : mux.Router) : mux.Router :=
  fold_left addRoute profilerRoutes m.

Definition setSwapper (s : Server) (m : mux.Router) : Server :=
  {| cfg := cfg s; servers := servers s; routers := routers s;
     routerSwapper := Some m; middlewares := middlewares s |}.

(** [InitRouter] initializes the list of routers for the server, and
    enables the profiler if [enableProfiler] is true. *)
Definition InitRouter (s : Server) (enableProfiler : bool)
    (rts : list router.Router) : Server :=
  let s := {| cfg := cfg s; servers := servers s;
              routers := routers s ++ rts;
              routerSwapper := routerSwapper s;
              middlewares := middlewares s |} in
  let m := createMux s in
  let m := if enableProfiler then profilerSetup m else m in
  setSwapper s m.

(** [DisableProfiler] reloads the server mux without the profiler routes. *)
Definition DisableProfiler (s : Server) : Server :=
  setSwapper s (createMux s).

(** [EnableProfiler] reloads the server mux adding the profiler routes. *)
Definition EnableProfiler (s : Server) : Server :=
  let m := createMux s in
  let m := profilerSetup m in
  setSwapper s m.

(** *** Close *)

(** What [l.Close()] returns is the listener's business; it may depend on
    the close calls made so far (closing a closed listener fails). *)
Variable Listener_Close : list Listener → Listener → option error.

(** [HTTPServer.Close]: closes the listener. The state threaded through
    is the sequence of listeners [Close] has been called on. *)
Definition HTTPServer_Close (srv : HTTPServer) (closed : list Listener)
    : option error * list Listener :=
  (Listener_Close closed (l srv), closed ++ [l srv]).

(** [Server.Close] closes servers and thus stops receiving requests. *)
Definition Close (s : Server) (closed : list Listener)
    : list (event error) * list Listener :=
  fold_left
    (λ '(evs, closed) srv,
       let '(err, closed) := HTTPServer_Close srv closed in
       match err with
       | Some err => (evs ++ [Logp ErrorLevel [AErr err]], closed)
       | None => (evs, closed)
       end)
    (servers s) ([], closed).

(** *** serveAPI and Wait

    [serveAPI] spawns one goroutine per server and then receives from
    [chErrors]; the goroutines and the caller interleave. The program is
    a transition system: a [label] names the thread that takes the next
    step, [step] is that step, and [run] follows a schedule. (Setting the
    handler of each server to the swapper, which has no bearing on how the
    threads end, is left out.) *)

Definition closedMsg : string := "use of closed network connection".

(** What a serving goroutine sends, from what [srv.Serve()] returned. *)
Definition serveOutcome (err : option error) : option error :=
  match err with
  | Some e => if Contains (Error e) closedMsg then None else Some e
  | None => None
  end.

(** A serving goroutine: started, inside [srv.Serve()], back from it with
    its result, or finished (after its send on [chErrors]). *)
Inductive gstate :=
| GStart
| GServing
| GReturned (err : option error)
| GDone.

(** The goroutine running [Wait]: in the spawning loop of [serveAPI]
    before server [k]; in its receiving loop with [i] outcomes received;
    back in [Wait] with the result of [serveAPI]; returned from [Wait]. *)
Inductive mstate :=
| MSpawn (k : nat)
| MRecv (i : nat)
| MReturn (err : option error)
| MDone (err : option error).

Record state := {
  gs : list gstate;
  (* the buffered channel, oldest value first *)
  chErrors : list (option error);
  main : mstate;
  (* the values sent on [waitChan] so far *)
  waitChan : list (option error);
  (* history: every send on [chErrors] so far, with the sending server's
     index, oldest first *)
  sent : list (nat * option error);
  logs : list (event error)
}.

Inductive label :=
| LMain
| LGo (i : nat)
| LServeReturn (i : nat) (err : option error).

Definition init : state :=
  {| gs := []; chErrors := []; main := MSpawn 0; waitChan := [];
     sent := []; logs := [] |}.

Definition stepMain (s : Server) (st : state) : option state :=
  match main st with
  | MSpawn k =>
      match servers s !! k with
      | Some srv =>
          (* go func(srv *HTTPServer) {...}(srv) *)
          Some {| gs := gs st ++ [GStart]; chErrors := chErrors st;
                  main := MSpawn (S k); waitChan := waitChan st;
                  sent := sent st; logs := logs st |}
      | None =>
          Some {| gs := gs st; chErrors := chErrors st;
                  main := MRecv 0; waitChan := waitChan st;
                  sent := sent st; logs := logs st |}
      end
  | MRecv i =>
      if (i <? length (servers s))%nat then
        (* err := <-chErrors blocks on the empty channel *)
        match chErrors st with
        | [] => None
        | err :: rest =>
            Some {| gs := gs st; chErrors := rest;
                    main := match err with
                            | Some _ => MReturn err
                            | None => MRecv (S i)
                            end;
                    waitChan := waitChan st;
                    sent := sent st; logs := logs st |}
        end
      else
        Some {| gs := gs st; chErrors := chErrors st;
                main := MReturn None; waitChan := waitChan st;
                sent := sent st; logs := logs st |}
  | MReturn err =>
      (* Wait: log an error, send the result on waitChan, return *)
      Some {| gs := gs st; chErrors := chErrors st;
              main := MDone err; waitChan := waitChan st ++ [err];
              sent := sent st;
              logs := logs st ++
                      match err with
                      | Some e => [Logf ErrorLevel "ServeAPI error: %v" [AErr e]]
                      | None => []
                      end |}
  | MDone _ => None
  end.

Definition stepGo (s : Server) (st : state) (i : nat) : option state :=
  match gs st !! i, servers s !! i with
  | Some GStart, Some srv =>
      Some {| gs := <[i := GServing]> (gs st); chErrors := chErrors st;
              main := main st; waitChan := waitChan st; sent := sent st;
              logs := logs st ++
                      [Logf InfoLevel "API listen on %s" [AStr (l_Addr (l srv))]] |}
  | Some (GReturned err), Some _ =>
      (* chErrors <- err blocks on the full channel *)
      if (length (chErrors st) <? length (servers s))%nat then
        Some {| gs := <[i := GDone]> (gs st);
                chErrors := chErrors st ++ [serveOutcome err];
                main := main st; waitChan := waitChan st;
                sent := sent st ++ [(i, serveOutcome err)];
                logs := logs st |}
      else None
  | _, _ => None
  end.

(** [srv.Serve()] of server [i] returns [err]. *)
Definition stepServeReturn (st : state) (i : nat) (err : option error)
    : option state :=
  match gs st !! i with
  | Some GServing =>
      Some {| gs := <[i := GReturned err]> (gs st); chErrors := chErrors st;
              main := main st; waitChan := waitChan st; sent := sent st;
              logs := logs st |}
  | _ => None
  end.

Definition step (s : Server) (st : state) (a : label) : option state :=
  match a with
  | LMain => stepMain s st
  | LGo i => stepGo s st i
  | LServeReturn i err => stepServeReturn st i err
  end.

Fixpoint run (s : Server) (st : state) (sched : list label) : option state :=
  match sched with
  | [] => Some st
  | a :: rest =>
      match step s st a with
      | Some st' => run s st' rest
      | None => None
      end
  end.

(** The first non-nil error of a sequence of outcomes. *)
Fixpoint firstError (outs : list (option error)) : option error :=
  match outs with
  | [] => None
  | Some e :: _ => Some e
  | None :: rest => firstError rest
  end.

(** A schedule of the goroutines of the first [j] servers, one after the
    other: the goroutine of server [i] starts, its [srv.Serve()] returns
    [outs !! i], and it sends. *)
Definition serveSched (outs : list (option error)) (j : nat) : list label :=
  concat (map (λ i, [LGo i; LServeReturn i (default None (outs !! i)); LGo i])
              (seq 0 j)).

(** What the caller has received from [chErrors] at each point of its
    code, for [n] servers: used to state the invariant of the system. *)
Definition received (n : nat) (m : mstate) (recvd : list (option error)) : Prop :=
  match m with
  | MSpawn _ => recvd = []
  | MRecv i => recvd = replicate i None ∧ (i ≤ n)%nat
  | MReturn (Some e) | MDone (Some e) =>
      ∃ j, (j < n)%nat ∧ recvd = replicate j None ++ [Some e]
  | MReturn None | MDone None => recvd = replicate n None
  end.

(** All servers have a goroutine once the spawning loop is over; the
    sends on [chErrors] are what the caller has received followed by what
    the channel holds; [waitChan] has the result once [Wait] has returned
    and nothing before. *)
Record shapeInv (s : Server) (st : state) : Prop := {
  inv_gs : length (gs st)
           = match main st with MSpawn k => k | _ => length (servers s) end;
  inv_spawn : ∀ k, main st = MSpawn k → (k ≤ length (servers s))%nat;
  inv_recv : ∃ recvd, map snd (sent st) = recvd ++ chErrors st
                      ∧ received (length (servers s)) (main st) recvd;
  inv_wait : waitChan st = match main st with MDone r => [r] | _ => [] end
}.

(** The goroutines that have sent are those that are finished, and each
    has sent once. *)
Record sentInv (st : state) : Prop := {
  inv_nodup : NoDup (map fst (sent st));
  inv_done : ∀ i, i ∈ map fst (sent st) ↔ gs st !! i = Some GDone
}.

(** Every value sent is the outcome of what [srv.Serve()] returned in
    the sending goroutine. *)
Record originInv (sched : list label) (st : state) : Prop := {
  inv_ret : ∀ i err, gs st !! i = Some (GReturned err) →
                     LServeReturn i err ∈ sched;
  inv_sent : ∀ i o, (i, o) ∈ sent st →
                    ∃ err, LServeReturn i err ∈ sched ∧ o = serveOutcome err
}.

End server.

(** ** Requests served while the table is rebuilt and swapped *)

Module Swapper.
Section swapper.

Context `{HU : HttpUtils}.
Variable handlerWithGlobalMiddlewares : Server → APIFunc → APIFunc.
Variable profilerRoutes : list mux.Route.

(** A table is built by mutating a fresh router one registration at a
    time: [createMux] is this sequence of mutations, and [profilerSetup]
    continues it. *)
Definition buildStep : Type := mux.Router → mux.Router.

Definition routeSteps (s : Server) (r : router.Route) : list buildStep :=
  let f := makeHTTPHandler handlerWithGlobalMiddlewares s (router.Handler r) in
  [ (λ m, mux.PathMethodsHandler m (versionMatcher +:+ router.Path r) (router.Method r) f);
    (λ m, mux.PathMethodsHandler m (router.Path r) (router.Method r) f) ].

Definition createMuxSteps (s : Server) : list buildStep :=
  flat_map (routeSteps s) (allRoutes s)
  ++ [ (λ m, mux.HandleFunc m (versionMatcher +:+ "/{path:.*}") (MakeErrorHandler notFoundErr));
       (λ m, mux.setNotFoundHandler m (MakeErrorHandler notFoundErr)) ].

Definition profilerSteps : list buildStep :=
  map (λ rt m, addRoute m rt) profilerRoutes.

Definition tableSteps (s : Server) (profiler : bool) : list buildStep :=
  createMuxSteps s ++ (if profiler then profilerSteps else []).

(** The finished table of [DisableProfiler] ([false]) and of
    [EnableProfiler] ([true]). *)
Definition table (s : Server) (profiler : bool) : mux.Router :=
  if profiler
  then profilerSetup profilerRoutes (createMux handlerWithGlobalMiddlewares s)
  else createMux handlerWithGlobalMiddlewares s.

(** An administrative call ([EnableProfiler] or [DisableProfiler]): not
    started; building the router at address [p] with the registrations
    [todo] still to make; done (after its [Swap]). *)
Inductive apc :=
| ANew
| ABuild (p : nat) (todo : list buildStep)
| ADone.

(** A request going through the swapper: not started; dispatching on the
    router at address [p], of which it has read the routes [seen] so far;
    done, having read the table [observed]. *)
Inductive spc :=
| SIdle
| SScan (p : nat) (seen : list mux.Route)
| SDone (observed : mux.Router).

Inductive thread :=
| TAdmin (profiler : bool) (pc : apc)
| TServe (pc : spc).

(** Modelled from the spec: the Router Swapper, whose source is missing.
    It holds one reference to the active table; serving reads the reference
    under the lock and dispatches through the table it designates;
    swapping replaces the reference under the lock (section 4.5). Each
    critical section is one step. *)
Record state := {
  heap : list mux.Router;
  router : nat;
  threads : list thread
}.

Definition setThread (st : state) (t : nat) (th : thread) : state :=
  {| heap := heap st; router := router st;
     threads := <[t := th]> (threads st) |}.

(** Modelled from the spec: one step of thread [t]. The source of the
    swapper's [ServeHTTP] and [Swap] is missing; the steps of
    [EnableProfiler] and [DisableProfiler] around [Swap] follow the source:
    the table is built in full on a router of its own, and swapped in
    last. *)
Definition step (s : Server) (st : state) (t : nat) : option state :=
  match threads st !! t with
  | Some (TAdmin profiler ANew) =>
      (* m := mux.NewRouter() *)
      Some {| heap := heap st ++ [mux.NewRouter]; router := router st;
              threads := <[t := TAdmin profiler
                                   (ABuild (length (heap st)) (tableSteps s profiler))]>
                           (threads st) |}
  | Some (TAdmin profiler (ABuild p (op :: todo))) =>
      match heap st !! p with
      | Some m =>
          Some {| heap := <[p := op m]> (heap st); router := router st;
                  threads := <[t := TAdmin profiler (ABuild p todo)]> (threads st) |}
      | None => None
      end
  | Some (TAdmin profiler (ABuild p [])) =>
      (* s.routerSwapper.Swap(m) *)
      Some {| heap := heap st; router := p;
              threads := <[t := TAdmin profiler ADone]> (threads st) |}
  | Some (TServe SIdle) =>
      Some (setThread st t (TServe (SScan (router st) [])))
  | Some (TServe (SScan p seen)) =>
      match heap st !! p with
      | Some m =>
          match mux.routes m !! length seen with
          | Some rt => Some (setThread st t (TServe (SScan p (seen ++ [rt]))))
          | None =>
              Some (setThread st t
                      (TServe (SDone {| mux.routes := seen;
                                        mux.NotFoundHandler := mux.NotFoundHandler m |})))
          end
      | None => None
      end
  | _ => None
  end.

Fixpoint run (s : Server) (st : state) (sched : list nat) : option state :=
  match sched with
  | [] => Some st
  | t :: rest =>
      match step s st t with
      | Some st' => run s st' rest
      | None => None
      end
  end.

(** The calls made on the server once [InitRouter] has installed the
    initial table: each is a thread of its own. *)
Inductive call := CallEnableProfiler | CallDisableProfiler | CallServeHTTP.

Definition start (c : call) : thread :=
  match c with
  | CallEnableProfiler => TAdmin true ANew
  | CallDisableProfiler => TAdmin false ANew
  | CallServeHTTP => TServe SIdle
  end.

Definition init (s : Server) (enableProfiler : bool) (calls : list call) : state :=
  {| heap := [table s enableProfiler]; router := 0; threads := map start calls |}.

(** A finished table. *)
Definition complete (s : Server) (m : mux.Router) : Prop :=
  ∃ profiler, m = table s profiler.

(** The invariant of the system: the active router is finished; so is
    the router a request dispatches on, of which the request has read a
    prefix; a router under construction is known to its builder alone. *)
Record swapInv (s : Server) (st : state) : Prop := {
  inv_router : ∃ m, heap st !! router st = Some m ∧ complete s m;
  inv_serve : ∀ t p seen,
    threads st !! t = Some (TServe (SScan p seen)) →
    ∃ m, heap st !! p = Some m ∧ complete s m
         ∧ seen = take (length seen) (mux.routes m);
  inv_observed : ∀ t m,
    threads st !! t = Some (TServe (SDone m)) → complete s m;
  inv_build : ∀ t profiler p todo,
    threads st !! t = Some (TAdmin profiler (ABuild p todo)) →
    (∃ m, heap st !! p = Some m
          ∧ fold_left (λ m (op : buildStep), op m) todo m = table s profiler)
    ∧ p ≠ router st
    ∧ (∀ t' p' seen,
         threads st !! t' = Some (TServe (SScan p' seen)) → p ≠ p')
    ∧ (∀ t' profiler' p' todo',
         t' ≠ t →
         threads st !! t' = Some (TAdmin profiler' (ABuild p' todo')) → p ≠ p')
}.

End swapper.
End Swapper.

(** ** The error taxonomy and the error translation *)

Inductive errKind :=
| NotFound | Malformed | Conflict | Unauthorized | Forbidden | Internal.

Record apiError := { kind : errKind; message : string }.

Definition statusOf (k : errKind) : Z :=
  match k with
  | NotFound => 404
  | Malformed => 400
  | Conflict => 409
  | Unauthorized => 401
  | Forbidden => 403
  | Internal => 500
  end%Z.

(** Modelled from the spec: the packages [api/errors] and [httputils],
    which are missing. An error has a kind of the taxonomy of section 7 and
    a message; an unclassified error is internal; the error handler writes
    the status of the kind and a structured body of code and message
    (sections 4.3 and 6). *)
#[export] Instance specHttpUtils : HttpUtils := {|
  error := apiError;
  Error := message;
  Errorf := λ msg, {| kind := Internal; message := msg |};
  NewRequestNotFoundError := λ e, {| kind := NotFound; message := message e |};
  GetHTTPErrorStatusCode := λ e, statusOf (kind e);
  MakeErrorHandler := λ e _,
    [WriteHeader (statusOf (kind e));
     Write (ErrorResponse (statusOf (kind e)) (message e))]
|}.

(** ** A server with two listeners and one route, for the examples *)

Definition exCfg : Config :=
  {| Logging := false; EnableCors := false; CorsHeaders := "";
     Version := "1.40"; SocketGroup := "docker" |}.

Definition tcpListener : Listener := {| l_id := 0; l_Addr := "127.0.0.1:2375" |}.
Definition unixListener : Listener := {| l_id := 1; l_Addr := "/var/run/docker.sock" |}.

Definition infoHandler : APIFunc :=
  λ _ _ _, ([WriteHeader 200%Z; Write (Plain "{}")], None).

Definition errBoom : apiError := {| kind := Internal; message := "boom" |}.

Definition failingHandler : APIFunc := λ _ _ _, ([], Some errBoom).

Definition infoRoute : router.Route :=
  {| router.Handler := infoHandler; router.Method := "GET"; router.Path := "/info" |}.

Definition exRouter : router.Router := {| router.Routes := [infoRoute] |}.

Definition noMiddlewares : Server → APIFunc → APIFunc := λ _ h, h.

Definition debugRoute : mux.Route :=
  {| mux.tpl := "/debug/vars"; mux.methods := None;
     mux.handler := λ _, [WriteHeader 200%Z; Write (Plain "{}")] |}.

Definition exServer : Server :=
  InitRouter noMiddlewares [debugRoute]
    (Accept (Accept (New exCfg) "127.0.0.1:2375" [tcpListener])
            "/var/run/docker.sock" [unixListener])
    false [exRouter].

(** A router that matches literal templates only. *)
Definition literalMatcher : mux.Matcher :=
  {| mux.pathMatch := λ t p, if String.eqb t p then Some ∅ else None;
     mux.methodsMatch := λ ms m, existsb (String.eqb m) ms |}.

Definition unknownRequest : http.Request :=
  {| http.Method := "GET"; http.URL_Path := "/v1.40/unknown";
     http.Header := ∅; http.muxVars := None |}.

Definition errTooMany : apiError :=
  {| kind := Internal;
     message := "accept tcp 127.0.0.1:2375: accept4: too many open files" |}.

Definition errUnix : apiError :=
  {| kind := Internal;
     message := "accept unix /var/run/docker.sock: accept4: bad file descriptor" |}.

Definition errClosed : apiError :=
  {| kind := Internal;
     message := "accept tcp 127.0.0.1:2375: use of closed network connection" |}.

(** A listener whose [Close] fails once it has been closed. *)
Definition closeOnce (closed : list Listener) (ln : Listener) : option error :=
  if existsb (λ ln', Nat.eqb (l_id ln') (l_id ln)) closed
  then Some errClosed else None.

(** The tcp server fails while the unix server is still serving. *)
Definition schedEarly : list label :=
  [LMain; LMain; LMain; LGo 0; LGo 1;
   LServeReturn 0 (Some errTooMany); LGo 0; LMain; LMain].

(** Both servers fail; the unix server, registered second, sends first. *)
Definition schedUnixFirst : list label :=
  [LMain; LMain; LMain; LGo 0; LGo 1;
   LServeReturn 1 (Some errUnix); LServeReturn 0 (Some errTooMany);
   LGo 1; LGo 0; LMain; LMain].

(** Both servers fail; the tcp server sends first. *)
Definition schedTcpFirst : list label :=
  [LMain; LMain; LMain; LGo 0; LGo 1;
   LServeReturn 1 (Some errUnix); LServeReturn 0 (Some errTooMany);
   LGo 0; LGo 1; LMain; LMain].

(** The tcp listener is closed, then the unix server fails. *)
Definition schedMixed : list label :=
  [LMain; LMain; LMain; LGo 0; LGo 1;
   LServeReturn 0 (Some errClosed); LGo 0;
   LServeReturn 1 (Some errUnix); LGo 1; LMain; LMain; LMain].

(** Both listeners are closed. *)
Definition schedClean : list label :=
  [LMain; LMain; LMain; LGo 0; LGo 1;
   LServeReturn 0 (Some errClosed); LServeReturn 1 (Some errClosed);
   LGo 0; LGo 1; LMain; LMain; LMain; LMain].

(** The states these schedules lead to. *)
Definition afterEarly : state :=
  Eval vm_compute in default init (run exServer init schedEarly).
Definition afterUnixFirst : state :=
  Eval vm_compute in default init (run exServer init schedUnixFirst).
Definition afterMixed : state :=
  Eval vm_compute in default init (run exServer init schedMixed).
Definition afterClean : state :=
  Eval vm_compute in default init (run exServer init schedClean).

(** A request, then [EnableProfiler] whose registrations interleave with
    the dispatch of the request, then a second request. *)
Definition exCalls : list Swapper.call :=
  [Swapper.CallServeHTTP; Swapper.CallEnableProfiler; Swapper.CallServeHTTP].

Definition schedSwap : list nat :=
  [1; 1; 0; 1; 0; 0; 1; 1; 1; 1; 0; 0; 2; 2; 2; 2; 2; 2]%nat.

Definition afterSwap : Swapper.state :=
  Eval vm_compute in
    default (Swapper.init noMiddlewares [debugRoute] exServer false exCalls)
            (Swapper.run noMiddlewares [debugRoute] exServer
               (Swapper.init noMiddlewares [debugRoute] exServer false exCalls)
               schedSwap).


(** ** Further definitions for the properties of the setup and of the logs *)


(** A server on which neither [Accept] nor [InitRouter] has been called. *)
Definition bareServer : Server := New exCfg.

(** Listeners whose [Close] never fails. *)
Definition closeFine (closed : list Listener) (ln : Listener) : option error :=
  None.

(** The tcp server is back from [srv.Serve()] and has not sent yet. *)
Definition schedBack : list label :=
  [LMain; LMain; LMain; LGo 0; LServeReturn 0 (Some errTooMany)].

Definition afterBack : state :=
  Eval vm_compute in default init (run exServer init schedBack).

(** ** cmd/dockerd: runDaemon *)

Module dockerd.
Section dockerd.

(** The errors of the daemon, and the two fields of the options that
    [runDaemon] hands on without reading them. *)
Variables (E Common Flags : Type).

(** The two fields of [daemon.Config] that [runDaemon] reads or writes. *)
Record Config := { Pidfile : string; Root : string }.

Record daemonOptions := {
  version : bool;
  configFile : string;
  daemonConfig : Config;
  common : Common;
  flags : Flags
}.

(** What [runDaemon] does to the world, in order. *)
Inductive event :=
| Printf (format : string) (args : list string)
| NewDaemonCli
| InitService
| Fatal (err : E)
| Start (opts : daemonOptions)
| NotifyShutdown (err : option E).

(** [runDaemon] returns an error or nil to its caller, unless
    [logrus.Fatal] has ended the process. *)
Inductive outcome :=
| Returned (err : option E)
| Exited.

(** What [runDaemon] gets from the platform and from the other files of
    the command. *)
Record Env := {
  GOOS : string;
  Join : string → string → string;
  initService : bool * option E;
  start : daemonOptions → option E;
  dockerversion_Version : string;
  dockerversion_GitCommit : string
}.

(** The line feed that ends the format of [showVersion]. *)
Definition newline : string :=
  String (Ascii.Ascii false true false true false false false false) "".

Definition showVersion (env : Env) : list event :=
  [Printf ("Docker version %s, build %s" +:+ newline)
     [dockerversion_Version env; dockerversion_GitCommit env]].

(** The Windows specific settings, as these are not defaulted. *)
Definition windowsDefaults (env : Env) (opts : daemonOptions) : daemonOptions :=
  let cfg :=
    if String.eqb (Pidfile (daemonConfig opts)) ""
    then {| Pidfile := Join env (Root (daemonConfig opts)) "docker.pid";
            Root := Root (daemonConfig opts) |}
    else daemonConfig opts in
  let file :=
    if String.eqb (configFile opts) ""
    then Join env (Root cfg) "config\daemon.json"
    else configFile opts in
  {| version := version opts; configFile := file; daemonConfig := cfg;
     common := common opts; flags := flags opts |}.

Definition runDaemon (env : Env) (opts : daemonOptions) : list event * outcome :=
  if version opts then (showVersion env, Returned None)
  else
    let opts :=
      if String.eqb (GOOS env) "windows" then windowsDefaults env opts else opts in
    match initService env with
    | (_, Some err) => ([NewDaemonCli; InitService; Fatal err], Exited)
    | (true, None) => ([NewDaemonCli; InitService], Returned None)
    | (false, None) =>
        let err := start env opts in
        ([NewDaemonCli; InitService; Start opts; NotifyShutdown err], Returned err)
    end.

End dockerd.

Arguments version {Common Flags} d.
Arguments configFile {Common Flags} d.
Arguments daemonConfig {Common Flags} d.
Arguments common {Common Flags} d.
Arguments flags {Common Flags} d.
Arguments Printf {E Common Flags} format args.
Arguments NewDaemonCli {E Common Flags}.
Arguments InitService {E Common Flags}.
Arguments Fatal {E Common Flags} err.
Arguments Start {E Common Flags} opts.
Arguments NotifyShutdown {E Common Flags} err.
Arguments Returned {E} err.
Arguments Exited {E}.
Arguments GOOS {E Common Flags} e.
Arguments Join {E Common Flags} e.
Arguments initService {E Common Flags} e.
Arguments start {E Common Flags} e.
Arguments dockerversion_Version {E Common Flags} e.
Arguments dockerversion_GitCommit {E Common Flags} e.
Arguments showVersion {E Common Flags} env.
Arguments windowsDefaults {E Common Flags} env opts.
Arguments runDaemon {E Common Flags} env opts.

End dockerd.

(** A Windows daemon where only the root directory is set. *)
Definition windowsEnv : dockerd.Env string unit unit :=
  {| dockerd.GOOS := "windows";
     dockerd.Join := λ a b, a +:+ "\" +:+ b;
     dockerd.initService := (false, None);
     dockerd.start := λ _, Some "listen tcp: address already in use";
     dockerd.dockerversion_Version := "1.13.0";
     dockerd.dockerversion_GitCommit := "49bf474" |}.

Definition windowsOpts : dockerd.daemonOptions unit unit :=
  {| dockerd.version := false; dockerd.configFile := "";
     dockerd.daemonConfig := {| dockerd.Pidfile := ""; dockerd.Root := "C:\ProgramData\docker" |};
     dockerd.common := (); dockerd.flags := () |}.

(** The options [runDaemon] hands to [start] there. *)
Definition windowsStarted : dockerd.daemonOptions unit unit :=
  {| dockerd.version := false;
     dockerd.configFile := "C:\ProgramData\docker\config\daemon.json";
     dockerd.daemonConfig :=
       {| dockerd.Pidfile := "C:\ProgramData\docker\docker.pid";
          dockerd.Root := "C:\ProgramData\docker" |};
     dockerd.common := (); dockerd.flags := () |}.


(** * Properties *)

(** ** The routing table built by [createMux] *)

Section routing.

Context `{HU : HttpUtils} `{MT : mux.Matcher}.
Variable wrap : Server → APIFunc → APIFunc.

Lemma registerRoute_routes (s : Server) (rs : list router.Route) (m : mux.Router) :
  mux.routes (fold_left (registerRoute wrap s) rs m)
  = mux.routes m ++ flat_map (λ r, [versionedEntry wrap s r; bareEntry wrap s r]) rs.
Proof.
  revert m. induction rs as [|r rs IH]; intros m; simpl.
  - by rewrite app_nil_r.
  - rewrite IH. simpl. by rewrite <- !app_assoc.
Qed.

Lemma registerRoute_notFound (s : Server) (rs : list router.Route) (m : mux.Router) :
  mux.NotFoundHandler (fold_left (registerRoute wrap s) rs m)
  = mux.NotFoundHandler m.
Proof.
  revert m. induction rs as [|r rs IH]; intros m; simpl; [done|].
  by rewrite IH.
Qed.

Lemma registerRouters_routes (s : Server) (rts : list router.Router) (m : mux.Router) :
  mux.routes
    (fold_left (λ m apiRouter, fold_left (registerRoute wrap s) (router.Routes apiRouter) m)
               rts m)
  = mux.routes m
    ++ flat_map (λ r, [versionedEntry wrap s r; bareEntry wrap s r])
                (concat (map router.Routes rts)).
Proof.
  revert m. induction rts as [|rt rts IH]; intros m; simpl.
  - by rewrite app_nil_r.
  - rewrite IH, registerRoute_routes, flat_map_app. by rewrite <- app_assoc.
Qed.

Lemma registerRouters_notFound (s : Server) (rts : list router.Router) (m : mux.Router) :
  mux.NotFoundHandler
    (fold_left (λ m apiRouter, fold_left (registerRoute wrap s) (router.Routes apiRouter) m)
               rts m)
  = mux.NotFoundHandler m.
Proof.
  revert m. induction rts as [|rt rts IH]; intros m; simpl; [done|].
  by rewrite IH, registerRoute_notFound.
Qed.

(** The table is the two entries of every route, in registration order,
    then the versioned wildcard. *)
Lemma createMux_routes (s : Server) :
  mux.routes (createMux wrap s)
  = flat_map (λ r, [versionedEntry wrap s r; bareEntry wrap s r]) (allRoutes s)
    ++ [notFoundEntry].
Proof.
  unfold createMux. simpl. by rewrite registerRouters_routes.
Qed.

Lemma createMux_notFound (s : Server) :
  mux.NotFoundHandler (createMux wrap s) = Some (MakeErrorHandler notFoundErr).
Proof. reflexivity. Qed.

Lemma lookup_pairs {A B} (f g : A → B) (xs : list A) (i : nat) (x : A) :
  xs !! i = Some x →
  flat_map (λ a, [f a; g a]) xs !! (2 * i)%nat = Some (f x)
  ∧ flat_map (λ a, [f a; g a]) xs !! (2 * i + 1)%nat = Some (g x).
Proof.
  revert i. induction xs as [|a xs IH]; intros i Hi; [done|].
  destruct i as [|i]; simpl in Hi.
  - by simplify_eq.
  - replace (2 * S i)%nat with (S (S (2 * i))) by lia.
    simpl. by apply IH.
Qed.

Lemma length_pairs {A B} (f g : A → B) (xs : list A) :
  length (flat_map (λ a, [f a; g a]) xs) = (2 * length xs)%nat.
Proof. induction xs as [|a xs IH]; simpl; lia. Qed.

(** C2: building the routing table registers, for every route [R] of
    every registered router, the same wrapped handler under exactly two
    path forms for the method of [R]: [versionMatcher] followed by the
    path of [R], where [versionMatcher] is the prefix
    "/v{version:[0-9.]+}", and the bare path of [R]. With [R] the route
    number [i] in registration order, these are the entries [2*i] and
    [2*i+1] of the table, and the table has no entry besides the two of
    each route and the final not-found wildcard. A request that the table
    resolves to either of the two entries is answered by that one handler. *)
Theorem createMux_two_forms (s : Server) (i : nat) (R : router.Route) :
  allRoutes s !! i = Some R →
  let f := makeHTTPHandler wrap s (router.Handler R) in
  versionMatcher = "/v{version:[0-9.]+}"
  ∧ mux.routes (createMux wrap s) !! (2 * i)%nat
    = Some {| mux.tpl := versionMatcher +:+ router.Path R;
              mux.methods := Some [router.Method R];
              mux.handler := f |}
  ∧ mux.routes (createMux wrap s) !! (2 * i + 1)%nat
    = Some {| mux.tpl := router.Path R;
              mux.methods := Some [router.Method R];
              mux.handler := f |}
  ∧ length (mux.routes (createMux wrap s)) = (2 * length (allRoutes s) + 1)%nat
  ∧ mux.routes (createMux wrap s) !! (2 * length (allRoutes s))%nat
    = Some notFoundEntry
  ∧ ∀ r rt vs,
      mux.Match (mux.routes (createMux wrap s)) r = Some (rt, vs) →
      rt = versionedEntry wrap s R ∨ rt = bareEntry wrap s R →
      mux.ServeHTTP (createMux wrap s) r = f (http.withVars r vs).
Proof.
  intros Hi f.
  assert (Hserve : ∀ r rt vs,
            mux.Match (mux.routes (createMux wrap s)) r = Some (rt, vs) →
            rt = versionedEntry wrap s R ∨ rt = bareEntry wrap s R →
            mux.ServeHTTP (createMux wrap s) r = f (http.withVars r vs)).
  { intros r rt vs Hm Hrt. unfold mux.ServeHTTP. rewrite Hm.
    by destruct Hrt as [-> | ->]. }
  revert Hserve. rewrite createMux_routes. intros Hserve.
  destruct (lookup_pairs (versionedEntry wrap s) (bareEntry wrap s) _ _ _ Hi)
    as [Hv Hb].
  pose proof (lookup_lt_Some _ _ _ Hv) as Hlv.
  pose proof (lookup_lt_Some _ _ _ Hb) as Hlb.
  repeat split.
  - by rewrite lookup_app_l.
  - by rewrite lookup_app_l.
  - rewrite length_app, length_pairs. simpl. lia.
  - rewrite lookup_app_r by (rewrite length_pairs; lia).
    rewrite length_pairs. by rewrite Nat.sub_diag.
  - done.
Qed.

(** *** Requests that match no registered route *)

Lemma Match_unmatched (rts : list mux.Route) (r : http.Request) :
  (∀ rt, rt ∈ rts → mux.pathMatch (mux.tpl rt) (http.URL_Path r) = None) →
  mux.Match rts r = None.
Proof.
  induction rts as [|rt rts IH]; intros Hno; simpl; [done|].
  unfold mux.routeMatch. rewrite (Hno rt) by left.
  rewrite IH by (intros rt' Hin; apply Hno; by right).
  by destruct (match mux.methods rt with Some _ => _ | None => _ end).
Qed.

Lemma Match_app_unmatched (rts rts' : list mux.Route) (r : http.Request) :
  mux.Match rts r = None → mux.Match (rts ++ rts') r = mux.Match rts' r.
Proof.
  induction rts as [|rt rts IH]; simpl; [done|].
  destruct (mux.routeMatch rt r); [done|]. apply IH.
Qed.

Lemma ServeHTTP_unmatched (s : Server) (r : http.Request) :
  (∀ R, R ∈ allRoutes s →
     mux.pathMatch (versionMatcher +:+ router.Path R) (http.URL_Path r) = None
     ∧ mux.pathMatch (router.Path R) (http.URL_Path r) = None) →
  ∃ r', mux.ServeHTTP (createMux wrap s) r = MakeErrorHandler notFoundErr r'.
Proof.
  intros Hno. unfold mux.ServeHTTP.
  rewrite createMux_routes, createMux_notFound.
  rewrite Match_app_unmatched.
  - simpl. destruct (mux.routeMatch notFoundEntry r); eauto.
  - apply Match_unmatched. intros rt Hin.
    apply list_elem_of_In, in_flat_map in Hin as (R & HR & Hrt).
    apply list_elem_of_In in HR. destruct (Hno R HR) as [Hv Hb].
    simpl in Hrt. destruct Hrt as [<-|[<-|[]]]; done.
Qed.

(** ** The dispatch adapter *)


(** C7: when the wrapped handler returns an error, the adapter logs the
    method, the path and the error with the format "%+v" when the status
    mapped to the error is 500 and with "%v" for every other status, and
    then writes the response the error handler makes from the error alone:
    the status and the response do not depend on the format chosen. *)
Theorem makeHTTPHandler_error_logging
    (s : Server) (handler : APIFunc) (r : http.Request)
    (out : list (event error)) (err : error) :
  wrap s handler {| UAString := http.Header_Get r "User-Agent" |} r (handlerVars r)
  = (out, Some err) →
  ∃ errFormat : string,
    makeHTTPHandler wrap s handler r
    = out
      ++ [Logf ErrorLevel ("Handler for %s %s returned error: " +:+ errFormat)
            [AStr (http.Method r); AStr (http.URL_Path r); AErr err]]
      ++ MakeErrorHandler err r
    ∧ (GetHTTPErrorStatusCode err = 500%Z → errFormat = "%+v")
    ∧ (GetHTTPErrorStatusCode err ≠ 500%Z → errFormat = "%v").
Proof.
  intros Hcall. exists (errFormatOf (GetHTTPErrorStatusCode err)).
  unfold makeHTTPHandler. rewrite Hcall. split; [done|].
  unfold errFormatOf, http.StatusInternalServerError.
  destruct (Z.eqb_spec (GetHTTPErrorStatusCode err) 500); split; intros; done.
Qed.

End routing.

(** ** Closing the listeners *)

Section close.

Context `{HU : HttpUtils}.
Variable Listener_Close : list Listener → Listener → option error.

Lemma Close_loop (srvs : list HTTPServer) (evs : list (event error))
    (closed : list Listener) :
  let res :=
    fold_left
      (λ '(evs, closed) srv,
         let '(err, closed) := HTTPServer_Close Listener_Close srv closed in
         match err with
         | Some err => (evs ++ [Logp ErrorLevel [AErr err]], closed)
         | None => (evs, closed)
         end)
      srvs (evs, closed) in
  res.2 = closed ++ map l srvs
  ∧ (∀ ev, ev ∈ evs → ev ∈ res.1)
  ∧ (∀ i srv e,
       srvs !! i = Some srv →
       Listener_Close (closed ++ map l (take i srvs)) (l srv) = Some e →
       Logp ErrorLevel [AErr e] ∈ res.1)
  ∧ (∀ ev, ev ∈ res.1 →
       ev ∈ evs
       ∨ ∃ i srv e,
           srvs !! i = Some srv
           ∧ Listener_Close (closed ++ map l (take i srvs)) (l srv) = Some e
           ∧ ev = Logp ErrorLevel [AErr e]).
Proof.
  revert evs closed. induction srvs as [|srv srvs IH]; intros evs closed; simpl.
  - rewrite app_nil_r. repeat split; [done|done|auto].
  - set (evs' := match Listener_Close closed (l srv) with
                 | Some err => evs ++ [Logp ErrorLevel [AErr err]]
                 | None => evs
                 end).
    specialize (IH evs' (closed ++ [l srv])). simpl in IH.
    replace (match Listener_Close closed (l srv) with
             | Some err => (evs ++ [Logp ErrorLevel [AErr err]], closed ++ [l srv])
             | None => (evs, closed ++ [l srv])
             end) with (evs', closed ++ [l srv])
      by (unfold evs'; by destruct (Listener_Close closed (l srv))).
    destruct IH as (Hc & Hkeep & Hlog & Honly).
    assert (Hsub : ∀ ev, ev ∈ evs → ev ∈ evs').
    { intros ev Hev. unfold evs'.
      destruct (Listener_Close closed (l srv)); [|done].
      apply elem_of_app; by left. }
    repeat split.
    + rewrite Hc. by rewrite <- app_assoc.
    + intros ev Hev. by apply Hkeep, Hsub.
    + intros [|i] srv' e Hi He; simpl in *.
      * simplify_eq. rewrite app_nil_r in He. apply Hkeep.
        unfold evs'. rewrite He. apply elem_of_app; right. by left.
      * apply (Hlog i srv' e Hi). by rewrite <- app_assoc.
    + intros ev Hev. destruct (Honly ev Hev) as [Hin|(i & srv' & e & Hi & He & ->)].
      * unfold evs' in Hin.
        destruct (Listener_Close closed (l srv)) as [e|] eqn:Hres; [|by left].
        apply elem_of_app in Hin as [Hin|Hin]; [by left|].
        apply list_elem_of_singleton in Hin as ->.
        right. exists 0%nat, srv, e. simpl. by rewrite app_nil_r.
      * right. exists (S i), srv', e. simpl. by rewrite <- app_assoc in He.
Qed.

(** C8: [Close] calls [Close] on the listener of every one of the [N]
    servers, once each and in registration order, whatever the earlier
    calls returned: the calls made are those made before followed by all
    the listeners of the server. Every error a call returns is logged at
    error level, and nothing else is logged. *)
Theorem Close_attempts_all (s : Server) (closed : list Listener) :
  (Close Listener_Close s closed).2 = closed ++ map l (servers s)
  ∧ (∀ i srv e,
       servers s !! i = Some srv →
       Listener_Close (closed ++ map l (take i (servers s))) (l srv) = Some e →
       Logp ErrorLevel [AErr e] ∈ (Close Listener_Close s closed).1)
  ∧ (∀ ev, ev ∈ (Close Listener_Close s closed).1 →
       ∃ i srv e,
         servers s !! i = Some srv
         ∧ Listener_Close (closed ++ map l (take i (servers s))) (l srv) = Some e
         ∧ ev = Logp ErrorLevel [AErr e]).
Proof.
  destruct (Close_loop (servers s) [] closed) as (Hc & _ & Hlog & Honly).
  repeat split; [done|done|].
  intros ev Hev. destruct (Honly ev Hev) as [Hin|?]; [|done].
  by apply elem_of_nil in Hin.
Qed.

End close.

(** ** Waiting for the serving goroutines *)

Section waiting.

Context `{HU : HttpUtils}.
Variable s : Server.

Lemma run_app (st : state) (sched sched' : list label) :
  run s st (sched ++ sched')
  = match run s st sched with
    | Some st' => run s st' sched'
    | None => None
    end.
Proof.
  revert st. induction sched as [|a sched IH]; intros st; simpl; [done|].
  destruct (step s st a); [apply IH|done].
Qed.

(** Induction over the states a schedule reaches from [init]. *)
Lemma reach_ind (P : list label → state → Prop) :
  P [] init →
  (∀ sched st a st',
     run s init sched = Some st → P sched st →
     step s st a = Some st' → P (sched ++ [a]) st') →
  ∀ sched st, run s init sched = Some st → P sched st.
Proof.
  intros Hinit Hstep sched.
  induction sched as [|a sched IH] using rev_ind; intros st Hrun.
  - simpl in Hrun. by simplify_eq.
  - rewrite run_app in Hrun.
    destruct (run s init sched) as [st0|] eqn:Hrun0; [|done].
    simpl in Hrun. destruct (step s st0 a) as [st1|] eqn:Hst; [|done].
    simplify_eq. eauto.
Qed.

Lemma shapeInv_reach (sched : list label) (st : state) :
  run s init sched = Some st → shapeInv s st.
Proof.
  revert sched st. apply (reach_ind (λ _ st, shapeInv s st)).
  { split; simpl; [done|intros k [= <-]; lia|by exists []|done]. }
  intros sched st a st' _ [Hgs Hsp [recvd [Hsent Hrecv]] Hwait] Hstep.
  destruct a as [|i|i err]; simpl in Hstep.
  - unfold stepMain in Hstep.
    destruct (main st) as [k|i|r|r] eqn:Hm; simpl in Hgs, Hrecv, Hwait.
    + specialize (Hsp k eq_refl).
      destruct (servers s !! k) as [srv|] eqn:Hk; simplify_eq; split; simpl.
      * rewrite length_app. simpl. lia.
      * intros k' [= <-]. apply lookup_lt_Some in Hk. lia.
      * by exists [].
      * done.
      * apply lookup_ge_None in Hk. lia.
      * done.
      * exists []. repeat split; [done|lia].
      * done.
    + destruct Hrecv as [-> Hle].
      destruct (i <? length (servers s))%nat eqn:Hlt.
      * apply Nat.ltb_lt in Hlt.
        destruct (chErrors st) as [|o rest] eqn:Hch; [done|]. simplify_eq.
        split; simpl.
        -- by destruct o.
        -- by destruct o.
        -- exists (replicate i None ++ [o]).
           split; [by rewrite Hsent, cons_middle, app_assoc|].
           destruct o as [e|]; simpl; [eauto|].
           split; [by rewrite <- replicate_cons_app|lia].
        -- by destruct o.
      * apply Nat.ltb_ge in Hlt. simplify_eq. split; simpl; [done|done| |done].
        exists (replicate i None). split; [done|].
        by replace i with (length (servers s)) by lia.
    + simplify_eq. split; simpl; [done|done| |by rewrite Hwait].
      by exists recvd.
    + done.
  - unfold stepGo in Hstep.
    destruct (gs st !! i) as [[| |err|]|] eqn:Hg; try done;
      destruct (servers s !! i) as [srv|] eqn:Hsrv; try done.
    + simplify_eq. split; simpl; [by rewrite length_insert|done| |done].
      by exists recvd.
    + destruct (length (chErrors st) <? length (servers s))%nat; [|done].
      simplify_eq. split; simpl; [by rewrite length_insert|done| |done].
      exists recvd. split; [|done].
      by rewrite map_app, Hsent, app_assoc.
  - unfold stepServeReturn in Hstep.
    destruct (gs st !! i) as [[| |err'|]|] eqn:Hg; try done.
    simplify_eq. split; simpl; [by rewrite length_insert|done| |done].
    by exists recvd.
Qed.

Lemma insert_not_done (l : list gstate) (i j : nat) (g g' : gstate) :
  l !! i = Some g → g ≠ GDone → g' ≠ GDone →
  <[i := g']> l !! j = Some GDone ↔ l !! j = Some GDone.
Proof.
  intros Hi Hg Hg'. destruct (decide (i = j)) as [->|Hne].
  - rewrite list_lookup_insert_eq by (by eapply lookup_lt_Some).
    rewrite Hi. split; congruence.
  - by rewrite list_lookup_insert_ne.
Qed.

Lemma sentInv_reach (sched : list label) (st : state) :
  run s init sched = Some st → sentInv st.
Proof.
  revert sched st. apply (reach_ind (λ _ st, sentInv st)).
  { split; simpl; [constructor|]. intros i. split; [|done].
    intros Hin. by apply elem_of_nil in Hin. }
  intros sched st a st' _ [Hnd Hdone] Hstep.
  destruct a as [|i|i err]; simpl in Hstep.
  - unfold stepMain in Hstep.
    destruct (main st) as [k|i|r|r]; [| | |done].
    + destruct (servers s !! k); simplify_eq; split; simpl; try done.
      intros i. rewrite Hdone, lookup_app_Some, list_lookup_singleton_Some.
      split; [by left|]. intros [Hi|(_ & _ & Hi)]; done.
    + destruct (i <? length (servers s))%nat; [destruct (chErrors st)|];
        simplify_eq; by split.
    + simplify_eq. by split.
  - unfold stepGo in Hstep.
    destruct (gs st !! i) as [[| |err|]|] eqn:Hg; try done;
      destruct (servers s !! i) as [srv|] eqn:Hsrv; try done.
    + simplify_eq. split; simpl; [done|]. intros j. rewrite Hdone.
      symmetry. by eapply insert_not_done.
    + destruct (length (chErrors st) <? length (servers s))%nat; [|done].
      assert (Hfresh : i ∉ map fst (sent st)).
      { intros Hin. apply Hdone in Hin. congruence. }
      simplify_eq. split; simpl.
      * rewrite map_app. simpl. apply NoDup_app. split; [done|].
        split; [|apply NoDup_singleton].
        intros x Hx Hx'. by apply list_elem_of_singleton in Hx' as ->.
      * intros j. rewrite map_app, elem_of_app, Hdone. simpl.
        rewrite list_elem_of_singleton.
        destruct (decide (i = j)) as [->|Hne].
        -- rewrite list_lookup_insert_eq by (by eapply lookup_lt_Some).
           split; [done|by right].
        -- rewrite list_lookup_insert_ne by done.
           split; [|by left]. intros [Hj|Hj]; [done|congruence].
  - unfold stepServeReturn in Hstep.
    destruct (gs st !! i) as [[| |err'|]|] eqn:Hg; try done.
    simplify_eq. split; simpl; [done|]. intros j. rewrite Hdone.
    symmetry. by eapply insert_not_done.
Qed.

Lemma originInv_reach (sched : list label) (st : state) :
  run s init sched = Some st → originInv sched st.
Proof.
  revert sched st. apply (reach_ind originInv).
  { split; simpl; [done|]. intros i o Hin. by apply elem_of_nil in Hin. }
  intros sched st a st' _ [Hret Hsent] Hstep.
  assert (Hret' : ∀ i err, gs st !! i = Some (GReturned err) →
                           LServeReturn i err ∈ sched ++ [a]).
  { intros i err Hi. apply elem_of_app. left. eauto. }
  assert (Hsent' : ∀ i o, (i, o) ∈ sent st →
                          ∃ err, LServeReturn i err ∈ sched ++ [a]
                                 ∧ o = serveOutcome err).
  { intros i o Hi. destruct (Hsent i o Hi) as (err & Hin & ->).
    exists err. split; [|done]. apply elem_of_app. by left. }
  destruct a as [|i|i err]; simpl in Hstep.
  - unfold stepMain in Hstep.
    destruct (main st) as [k|i|r|r]; [| | |done].
    + destruct (servers s !! k); simplify_eq; split; simpl; try done.
      intros i err Hi. apply lookup_app_Some in Hi as [Hi|[_ Hi]]; [eauto|].
      apply list_lookup_singleton_Some in Hi as [_ Hi]. done.
    + destruct (i <? length (servers s))%nat; [destruct (chErrors st)|];
        simplify_eq; by split.
    + simplify_eq. by split.
  - unfold stepGo in Hstep.
    destruct (gs st !! i) as [[| |err|]|] eqn:Hg; try done;
      destruct (servers s !! i) as [srv|] eqn:Hsrv; try done.
    + simplify_eq. split; simpl; [|done]. intros j err Hj.
      apply list_lookup_insert_Some in Hj as [(_ & ? & _)|[_ Hj]]; [done|eauto].
    + destruct (length (chErrors st) <? length (servers s))%nat; [|done].
      simplify_eq. split; simpl.
      * intros j err' Hj.
        apply list_lookup_insert_Some in Hj as [(_ & ? & _)|[_ Hj]]; [done|eauto].
      * intros j o Hin. apply elem_of_app in Hin as [Hin|Hin]; [eauto|].
        apply list_elem_of_singleton in Hin. simplify_eq. eauto.
  - unfold stepServeReturn in Hstep.
    destruct (gs st !! i) as [[| |err'|]|] eqn:Hg; try done.
    simplify_eq. split; simpl; [|done]. intros j err' Hj.
    apply list_lookup_insert_Some in Hj as [(<- & ? & _)|[_ Hj]]; [|eauto].
    simplify_eq. apply elem_of_app. right. by left.
Qed.

(** At most one send per server: [chErrors], made for as many values as
    there are servers, never holds more. *)
Lemma sent_bound (sched : list label) (st : state) :
  run s init sched = Some st →
  (length (sent st) ≤ length (servers s))%nat
  ∧ ∀ i, (i < length (servers s))%nat →
         (length (servers s) ≤ length (sent st))%nat →
         gs st !! i = Some GDone.
Proof.
  intros Hrun.
  destruct (shapeInv_reach _ _ Hrun) as [Hgs Hsp _ _].
  destruct (sentInv_reach _ _ Hrun) as [Hnd Hdone].
  assert (Hlen : (length (gs st) ≤ length (servers s))%nat).
  { destruct (main st) as [k| | |]; [|lia..].
    specialize (Hsp k eq_refl). lia. }
  assert (Hsub : map fst (sent st) ⊆+ seq 0 (length (servers s))).
  { apply NoDup_submseteq; [done|]. intros i Hi.
    apply Hdone, lookup_lt_Some in Hi. apply elem_of_seq. lia. }
  pose proof (submseteq_length _ _ Hsub) as Hle.
  rewrite length_map, length_seq in Hle. split; [done|].
  intros i Hi Hge. apply Hdone.
  rewrite (submseteq_length_Permutation _ _ Hsub)
    by (rewrite length_map, length_seq; lia).
  apply elem_of_seq. lia.
Qed.

(** X15: a goroutine back from [srv.Serve()] can always send, also
    after [Wait] has returned: the buffer of [chErrors], made for as many
    values as there are servers, is never full when it comes to its send. *)
Lemma send_never_blocks (sched : list label) (st : state) (i : nat)
    (err : option error) :
  run s init sched = Some st →
  gs st !! i = Some (GReturned err) →
  ∃ st', step s st (LGo i) = Some st'.
Proof.
  intros Hrun Hg.
  destruct (shapeInv_reach _ _ Hrun) as [Hgs Hsp (recvd & Hsent & _) _].
  destruct (sentInv_reach _ _ Hrun) as [Hnd Hdone].
  assert (Hlen : (length (gs st) ≤ length (servers s))%nat).
  { destruct (main st) as [k| | |]; [|lia..].
    specialize (Hsp k eq_refl). lia. }
  assert (Hi : (i < length (servers s))%nat).
  { apply lookup_lt_Some in Hg. lia. }
  assert (Hfresh : i ∉ map fst (sent st)).
  { intros Hin. apply Hdone in Hin. congruence. }
  assert (Hsub : i :: map fst (sent st) ⊆+ seq 0 (length (servers s))).
  { apply NoDup_submseteq; [by constructor|]. intros j Hj.
    apply elem_of_seq. apply elem_of_cons in Hj as [->|Hj]; [lia|].
    apply Hdone, lookup_lt_Some in Hj. lia. }
  apply submseteq_length in Hsub.
  simpl in Hsub. rewrite length_map, length_seq in Hsub.
  apply (f_equal length) in Hsent.
  rewrite length_map, length_app in Hsent.
  destruct (lookup_lt_is_Some_2 (servers s) i Hi) as [srv Hsrv].
  simpl. unfold stepGo. rewrite Hg, Hsrv.
  destruct (Nat.ltb_spec (length (chErrors st)) (length (servers s))); [eauto|lia].
Qed.

Lemma run_trans (st1 st2 st3 : state) (sched sched' : list label) :
  run s st1 sched = Some st2 → run s st2 sched' = Some st3 →
  run s st1 (sched ++ sched') = Some st3.
Proof. intros H1 H2. by rewrite run_app, H1. Qed.

(** The spawning loop runs to its end. *)
Lemma spawn_phase (k : nat) :
  (k ≤ length (servers s))%nat →
  ∃ st, run s init (replicate k LMain) = Some st
        ∧ gs st = replicate k GStart ∧ chErrors st = [] ∧ main st = MSpawn k.
Proof.
  induction k as [|k IH]; intros Hk.
  - by exists init.
  - destruct IH as (st & Hrun & Hgs & Hch & Hm); [lia|].
    destruct (lookup_lt_is_Some_2 (servers s) k) as [srv Hsrv]; [lia|].
    eexists. split; [|split; [|split]].
    + simpl replicate. rewrite replicate_cons_app.
      eapply run_trans; [done|]. simpl. unfold stepMain. by rewrite Hm, Hsrv.
    + simpl. by rewrite Hgs, <- replicate_cons_app.
    + done.
    + done.
Qed.

Lemma insert_next_done (n j : nat) :
  (j < n)%nat →
  <[j := GDone]> (replicate j GDone ++ replicate (n - j) GStart)
  = replicate (S j) GDone ++ replicate (n - S j) GStart.
Proof.
  intros Hj. replace (n - j)%nat with (S (n - S j)) by lia.
  rewrite insert_app_r_alt by (rewrite length_replicate; lia).
  rewrite length_replicate, Nat.sub_diag. simpl.
  by rewrite cons_middle, app_assoc, <- replicate_cons_app.
Qed.

Lemma serve_phase (outs : list (option error)) (st0 : state) (j : nat) :
  length outs = length (servers s) →
  gs st0 = replicate (length (servers s)) GStart →
  chErrors st0 = [] →
  main st0 = MRecv 0 →
  (j ≤ length (servers s))%nat →
  ∃ st, run s st0 (serveSched outs j) = Some st
        ∧ gs st = replicate j GDone ++ replicate (length (servers s) - j) GStart
        ∧ chErrors st = map serveOutcome (take j outs)
        ∧ main st = MRecv 0.
Proof.
  intros Houts Hgs0 Hch0 Hm0. induction j as [|j IH]; intros Hj.
  - exists st0. rewrite Nat.sub_0_r. by rewrite take_0.
  - destruct IH as (st & Hrun & Hgs & Hch & Hm); [lia|].
    destruct (lookup_lt_is_Some_2 (servers s) j) as [srv Hsrv]; [lia|].
    destruct (lookup_lt_is_Some_2 outs j) as [o Ho]; [lia|].
    assert (Hgj : gs st !! j = Some GStart).
    { rewrite Hgs, lookup_app_r by (by rewrite length_replicate).
      rewrite length_replicate, Nat.sub_diag.
      apply lookup_replicate. split; [done|lia]. }
    assert (Hlj : (j < length (gs st))%nat) by (by eapply lookup_lt_Some).
    assert (Hcap : (length (chErrors st) <? length (servers s))%nat = true).
    { apply Nat.ltb_lt. rewrite Hch, length_map, length_take. lia. }
    eexists. split; [|split; [|split]].
    + unfold serveSched. rewrite seq_S, map_app, concat_app. simpl.
      eapply run_trans; [exact Hrun|]. rewrite Ho. simpl.
      unfold stepGo at 1. rewrite Hgj, Hsrv. simpl.
      unfold stepServeReturn. simpl.
      rewrite list_lookup_insert_eq by done. simpl.
      unfold stepGo. simpl. rewrite Hsrv.
      rewrite list_lookup_insert_eq by (by rewrite length_insert).
      rewrite Hcap. done.
    + simpl. rewrite !list_insert_insert_eq, Hgs. by apply insert_next_done.
    + simpl. by rewrite Hch, (take_S_r _ _ _ Ho), map_app.
    + done.
Qed.

(** The receiving loop runs to its end once the channel holds what is
    still to be received. *)
Lemma recv_phase (ch : list (option error)) (i : nat) (st : state) :
  main st = MRecv i →
  chErrors st = ch →
  (i + length ch = length (servers s))%nat →
  ∃ sched st', run s st sched = Some st' ∧ main st' = MReturn (firstError ch).
Proof.
  revert i st. induction ch as [|o ch IH]; intros i st Hm Hch Hlen; simpl in Hlen.
  - exists [LMain]. eexists. simpl. unfold stepMain. rewrite Hm.
    destruct (Nat.ltb_spec i (length (servers s))); [lia|]. done.
  - assert (Hlt : (i <? length (servers s))%nat = true) by (apply Nat.ltb_lt; lia).
    destruct o as [e|].
    + exists [LMain]. eexists. simpl. unfold stepMain. by rewrite Hm, Hlt, Hch.
    + edestruct (IH (S i)) as (sched & st' & Hrun & Hm'); [| |lia|].
      3:{ exists (LMain :: sched), st'. split; [|exact Hm'].
          simpl. unfold stepMain. rewrite Hm, Hlt, Hch. exact Hrun. }
      * done.
      * done.
Qed.

(** X16: [Wait] returns when every [srv.Serve()] returns: with [outs]
    what they return, server by server, a schedule exists on which [Wait]
    sends the first error among their outcomes, or nil when all are clean,
    and returns. *)
Lemma Wait_can_return (outs : list (option error)) :
  length outs = length (servers s) →
  ∃ sched st, run s init sched = Some st
              ∧ main st = MDone (firstError (map serveOutcome outs))
              ∧ waitChan st = [firstError (map serveOutcome outs)].
Proof.
  intros Houts.
  destruct (spawn_phase (length (servers s))) as (st1 & Hrun1 & Hgs1 & Hch1 & Hm1);
    [done|].
  assert (Hrun2 : ∃ st2, run s st1 [LMain] = Some st2
                         ∧ gs st2 = gs st1 ∧ chErrors st2 = [] ∧ main st2 = MRecv 0).
  { eexists. simpl. unfold stepMain. rewrite Hm1.
    rewrite (lookup_ge_None_2 (servers s)) by done. done. }
  destruct Hrun2 as (st2 & Hrun2 & Hgs2 & Hch2 & Hm2).
  destruct (serve_phase outs st2 (length (servers s)))
    as (st3 & Hrun3 & _ & Hch3 & Hm3); [done|congruence|done|done|done|].
  rewrite <- Houts, firstn_all in Hch3.
  destruct (recv_phase _ 0 st3 Hm3 Hch3) as (sched4 & st4 & Hrun4 & Hm4).
  { by rewrite length_map. }
  assert (Hrun : run s init (replicate (length (servers s)) LMain ++ [LMain]
                             ++ serveSched outs (length (servers s)) ++ sched4)
                 = Some st4).
  { eapply run_trans; [done|]. eapply run_trans; [done|].
    by eapply run_trans. }
  destruct (shapeInv_reach _ _ Hrun) as [_ _ _ Hwait]. rewrite Hm4 in Hwait.
  eexists (_ ++ [LMain]), _. split; [|split].
  - eapply run_trans; [exact Hrun|]. simpl. unfold stepMain. by rewrite Hm4.
  - done.
  - simpl. by rewrite Hwait.
Qed.

Lemma firstError_nils (n : nat) (outs : list (option error)) :
  firstError (replicate n None ++ outs) = firstError outs.
Proof. induction n as [|n IH]; simpl; done. Qed.

(** C10: [Wait] sends exactly one value on [waitChan] before it returns,
    and that value is the result of [serveAPI]: as long as [Wait] has not
    returned nothing has been sent; once [serveAPI] has returned [r] the
    next step of [Wait] sends [r] and returns; and after [Wait] has
    returned the values sent are [r] alone. *)
Theorem Wait_sends_once (sched : list label) (st : state) :
  run s init sched = Some st →
  waitChan st = match main st with MDone r => [r] | _ => [] end
  ∧ ∀ r, main st = MReturn r →
         ∃ st', step s st LMain = Some st'
                ∧ main st' = MDone r ∧ waitChan st' = [r].
Proof.
  intros Hrun. destruct (shapeInv_reach _ _ Hrun) as [_ _ _ Hwait].
  split; [done|]. intros r Hr. rewrite Hr in Hwait.
  simpl. unfold stepMain. rewrite Hr. eexists. split; [done|].
  simpl. by rewrite Hwait.
Qed.

(** The value on [waitChan] is the one [Wait] has returned with. *)
Lemma waited_value (sched : list label) (st : state) (v : option error) :
  run s init sched = Some st → v ∈ waitChan st → main st = MDone v.
Proof.
  intros Hrun Hv. destruct (shapeInv_reach _ _ Hrun) as [_ _ _ Hwait].
  destruct (main st) as [k|i|r|r]; rewrite Hwait in Hv;
    try (by apply elem_of_nil in Hv).
  by apply list_elem_of_singleton in Hv as ->.
Qed.

Lemma returned_value (sched : list label) (st : state) (r : option error) :
  run s init sched = Some st →
  main st = MDone r →
  r = firstError (map snd (sent st))
  ∧ (r = None →
     length (sent st) = length (servers s)
     ∧ ∀ i o, (i, o) ∈ sent st → o = None).
Proof.
  intros Hrun Hr.
  destruct (shapeInv_reach _ _ Hrun) as [_ _ (recvd & Hsent & Hrecv) _].
  destruct (sent_bound _ _ Hrun) as [Hle _].
  rewrite Hr in Hrecv. destruct r as [e|]; simpl in Hrecv.
  - destruct Hrecv as (j & _ & ->). split; [|done].
    by rewrite Hsent, <- app_assoc, firstError_nils.
  - subst recvd.
    assert (Hch : chErrors st = []).
    { apply (f_equal length) in Hsent.
      rewrite length_map, length_app, length_replicate in Hsent.
      destruct (chErrors st); [done|]. simpl in Hsent. lia. }
    rewrite Hch, app_nil_r in Hsent. split.
    + rewrite Hsent. by rewrite <- (app_nil_r (replicate _ _)), firstError_nils.
    + intros _. split.
      * apply (f_equal length) in Hsent.
        by rewrite length_map, length_replicate in Hsent.
      * intros i o Hin.
        assert (Ho : o ∈ map snd (sent st)).
        { apply list_elem_of_In, in_map_iff. exists (i, o).
          split; [done|]. by apply list_elem_of_In. }
        rewrite Hsent in Ho. by apply elem_of_replicate_inv in Ho.
Qed.

(** C3: the value [Wait] sends on [waitChan] is the first non-nil error
    in the order in which the serving goroutines completed, that is, sent
    their outcome on [chErrors]; it is nil only when every server has sent
    its outcome and all of them are nil. The index a server has in
    [servers] plays no part. *)
Theorem Wait_first_error (sched : list label) (st : state) (v : option error) :
  run s init sched = Some st →
  v ∈ waitChan st →
  v = firstError (map snd (sent st))
  ∧ (v = None →
     length (sent st) = length (servers s)
     ∧ ∀ i o, (i, o) ∈ sent st → o = None).
Proof.
  intros Hrun Hv. apply (returned_value sched); [done|].
  by apply (waited_value sched).
Qed.

(** The error [Wait] has returned with was sent by a goroutine, which
    is finished. *)
Lemma returned_error_sent (sched : list label) (st : state) (e : error) :
  run s init sched = Some st →
  main st = MDone (Some e) →
  ∃ i, gs st !! i = Some GDone ∧ (i, Some e) ∈ sent st.
Proof.
  intros Hrun Hr.
  destruct (shapeInv_reach _ _ Hrun) as [_ _ (recvd & Hsent & Hrecv) _].
  destruct (sentInv_reach _ _ Hrun) as [_ Hdone].
  rewrite Hr in Hrecv. simpl in Hrecv. destruct Hrecv as (j & _ & ->).
  assert (He : Some e ∈ map snd (sent st)).
  { rewrite Hsent. apply elem_of_app. left. apply elem_of_app. right. by left. }
  apply list_elem_of_In, in_map_iff in He as ([i o] & Ho & Hin).
  simpl in Ho. subst o. apply list_elem_of_In in Hin.
  exists i. split; [|done]. apply Hdone.
  apply list_elem_of_In, in_map_iff. exists (i, Some e).
  split; [done|]. by apply list_elem_of_In.
Qed.

(** C1, as the code has it: when [Wait] has returned with nil, every
    serving goroutine has finished and sent its outcome; when it has
    returned with an error, the goroutine that sent this error has
    finished, and nothing is said of the others. *)
Theorem Wait_returns_after (sched : list label) (st : state) (r : option error) :
  run s init sched = Some st →
  main st = MDone r →
  match r with
  | None => ∀ i, (i < length (servers s))%nat → gs st !! i = Some GDone
  | Some e => ∃ i, gs st !! i = Some GDone ∧ (i, Some e) ∈ sent st
  end.
Proof.
  intros Hrun Hr. destruct r as [e|].
  - by apply (returned_error_sent sched).
  - destruct (shapeInv_reach _ _ Hrun) as [_ _ (recvd & Hsent & Hrecv) _].
    destruct (sent_bound _ _ Hrun) as [_ Hall].
    rewrite Hr in Hrecv. simpl in Hrecv. subst recvd.
    intros i Hi. apply Hall; [done|].
    apply (f_equal length) in Hsent.
    rewrite length_map, length_app, length_replicate in Hsent. lia.
Qed.

(** C4: a serving goroutine whose [srv.Serve()] returns an error with
    "use of closed network connection" in its message sends nil, and
    one whose [srv.Serve()] returns any other error sends that error
    unchanged; every value sent on [chErrors] is the outcome of what some
    [srv.Serve()] returned; an error sent on [waitChan] is an error some
    [srv.Serve()] returned whose message does not contain that text; and
    nil is not sent on [waitChan] once a goroutine has sent an error. *)
Theorem closed_listener_is_clean (sched : list label) (st : state) :
  run s init sched = Some st →
  (∀ e, Contains (Error e) "use of closed network connection" = true →
        serveOutcome (Some e) = None)
  ∧ (∀ e, Contains (Error e) "use of closed network connection" = false →
          serveOutcome (Some e) = Some e)
  ∧ (∀ i o, (i, o) ∈ sent st →
            ∃ err, LServeReturn i err ∈ sched ∧ o = serveOutcome err)
  ∧ (∀ e, Some e ∈ waitChan st →
          Contains (Error e) "use of closed network connection" = false
          ∧ ∃ i, LServeReturn i (Some e) ∈ sched)
  ∧ (∀ i e, (i, Some e) ∈ sent st → None ∉ waitChan st).
Proof.
  intros Hrun.
  destruct (originInv_reach _ _ Hrun) as [_ Horigin].
  split; [|split; [|split; [|split]]].
  - intros e He. unfold serveOutcome, closedMsg. by rewrite He.
  - intros e He. unfold serveOutcome, closedMsg. by rewrite He.
  - done.
  - intros e He.
    destruct (shapeInv_reach _ _ Hrun) as [_ _ _ Hwait].
    destruct (main st) as [k|i|r|r] eqn:Hm; rewrite Hwait in He;
      try (by apply elem_of_nil in He).
    apply list_elem_of_singleton in He as <-.
    destruct (returned_error_sent _ _ _ Hrun Hm) as (i & _ & Hin).
    destruct (Horigin _ _ Hin) as ([e'|] & Hlab & Hout); [|done].
    unfold serveOutcome, closedMsg in Hout.
    destruct (Contains (Error e') _) eqn:Hc; [done|].
    simplify_eq. eauto.
  - intros i e Hin Hnil.
    apply (waited_value sched) in Hnil; [|done].
    destruct (returned_value _ _ _ Hrun Hnil) as [_ Hclean].
    destruct (Hclean eq_refl) as [_ Hall]. by specialize (Hall _ _ Hin).
Qed.

End waiting.

(** ** Swapping the table under live traffic *)

Section swapping.

Context `{HU : HttpUtils}.
Variable wrap : Server → APIFunc → APIFunc.
Variable profilerRoutes : list mux.Route.
Variable s : Server.

Local Abbreviation step := (Swapper.step wrap profilerRoutes s).
Local Abbreviation run := (Swapper.run wrap profilerRoutes s).
Local Abbreviation table := (Swapper.table wrap profilerRoutes s).
Local Abbreviation swapInv := (Swapper.swapInv wrap profilerRoutes s).
Local Abbreviation apply :=
  (fold_left (λ (m : mux.Router) (op : Swapper.buildStep), op m)).

(** The registrations made one at a time give the table of [createMux],
    continued by [profilerSetup]. *)
Lemma routeSteps_registerRoute (rs : list router.Route) (m : mux.Router) :
  apply (flat_map (Swapper.routeSteps wrap s) rs) m
  = fold_left (registerRoute wrap s) rs m.
Proof.
  revert m. induction rs as [|r rs IH]; intros m; simpl; [done|].
  by rewrite IH.
Qed.

Lemma registerRouters_concat (rts : list router.Router) (m : mux.Router) :
  fold_left (λ m apiRouter, fold_left (registerRoute wrap s) (router.Routes apiRouter) m)
            rts m
  = fold_left (registerRoute wrap s) (concat (map router.Routes rts)) m.
Proof.
  revert m. induction rts as [|rt rts IH]; intros m; simpl; [done|].
  by rewrite IH, fold_left_app.
Qed.

Lemma createMuxSteps_createMux :
  apply (Swapper.createMuxSteps wrap s) mux.NewRouter = createMux wrap s.
Proof.
  unfold Swapper.createMuxSteps, createMux.
  rewrite fold_left_app, routeSteps_registerRoute. simpl.
  by rewrite registerRouters_concat.
Qed.

Lemma profilerSteps_profilerSetup (m : mux.Router) :
  apply (Swapper.profilerSteps profilerRoutes) m = profilerSetup profilerRoutes m.
Proof.
  unfold Swapper.profilerSteps, profilerSetup.
  revert m. induction profilerRoutes as [|rt rts IH]; intros m; simpl; [done|].
  by rewrite IH.
Qed.

Lemma tableSteps_table (profiler : bool) :
  apply (Swapper.tableSteps wrap profilerRoutes s profiler) mux.NewRouter
  = table profiler.
Proof.
  unfold Swapper.tableSteps, Swapper.table.
  rewrite fold_left_app, createMuxSteps_createMux.
  destruct profiler; simpl; [apply profilerSteps_profilerSetup|done].
Qed.

(** Run on their own, [DisableProfiler] and [EnableProfiler] install these
    tables. *)
Lemma DisableProfiler_table :
  routerSwapper (DisableProfiler wrap s) = Some (table false).
Proof. reflexivity. Qed.

Lemma EnableProfiler_table :
  routerSwapper (EnableProfiler wrap profilerRoutes s) = Some (table true).
Proof. reflexivity. Qed.

Lemma swap_run_app (st : Swapper.state) (sched sched' : list nat) :
  run st (sched ++ sched')
  = match run st sched with
    | Some st' => run st' sched'
    | None => None
    end.
Proof.
  revert st. induction sched as [|t sched IH]; intros st; simpl; [done|].
  destruct (step st t); [apply IH|done].
Qed.

Lemma start_cases (calls : list Swapper.call) (t : nat) (th : Swapper.thread) :
  map Swapper.start calls !! t = Some th →
  (∃ profiler, th = Swapper.TAdmin profiler Swapper.ANew)
  ∨ th = Swapper.TServe Swapper.SIdle.
Proof.
  revert t. induction calls as [|c calls IH]; intros t Ht; [done|].
  destruct t as [|t]; simpl in Ht; [|eauto].
  simplify_eq. destruct c; simpl; eauto.
Qed.

Lemma swapInv_init (enableProfiler : bool) (calls : list Swapper.call) :
  swapInv (Swapper.init wrap profilerRoutes s enableProfiler calls).
Proof.
  split; simpl.
  - eexists. split; [done|]. by exists enableProfiler.
  - intros t p seen Ht. apply start_cases in Ht as [[? ?]|?]; done.
  - intros t m Ht. apply start_cases in Ht as [[? ?]|?]; done.
  - intros t b p todo Ht. apply start_cases in Ht as [[? ?]|?]; done.
Qed.

Lemma swapInv_step (st st' : Swapper.state) (t : nat) :
  swapInv st → step st t = Some st' → swapInv st'.
Proof.
  intros [Hrouter Hserve Hobs Hbuild] Hstep.
  unfold Swapper.step in Hstep.
  destruct (Swapper.threads st !! t) as [th|] eqn:Ht; [|done].
  destruct Hrouter as (mr & Hmr & Hcr).
  pose proof (lookup_lt_Some _ _ _ Hmr) as Hrlt.
  destruct th as [b [|p [|op todo]|]|[|p seen|m]]; try done.
  - (* a new router is allocated *)
    simplify_eq. split; simpl.
    + exists mr. split; [by apply lookup_app_l_Some|done].
    + intros t' p seen Ht'.
      apply list_lookup_insert_Some in Ht' as [(_ & ? & _)|[_ Ht']]; [done|].
      destruct (Hserve _ _ _ Ht') as (m & Hm & ?).
      exists m. split; [by apply lookup_app_l_Some|done].
    + intros t' m Ht'.
      apply list_lookup_insert_Some in Ht' as [(_ & ? & _)|[_ Ht']]; [done|].
      eauto.
    + intros t' b' p todo Ht'.
      apply list_lookup_insert_Some in Ht' as [(<- & Heq & _)|[Hne Ht']].
      * simplify_eq. split; [|split; [lia|split]].
        -- exists mux.NewRouter. split; [|apply tableSteps_table].
           by rewrite lookup_app_r, Nat.sub_diag.
        -- intros t' p' seen Ht'.
           apply list_lookup_insert_Some in Ht' as [(_ & ? & _)|[_ Ht']]; [done|].
           destruct (Hserve _ _ _ Ht') as (m & Hm & _).
           apply lookup_lt_Some in Hm. lia.
        -- intros t' b2 p' todo' Hne Ht'.
           rewrite list_lookup_insert_ne in Ht' by done.
           destruct (Hbuild _ _ _ _ Ht') as ((m & Hm & _) & _).
           apply lookup_lt_Some in Hm. lia.
      * destruct (Hbuild _ _ _ _ Ht') as ((m & Hm & Hfold) & Hpr & Hps & Hpb).
        split; [|split; [done|split]].
        -- exists m. split; [by apply lookup_app_l_Some|done].
        -- intros t'' p' seen Ht''.
           apply list_lookup_insert_Some in Ht'' as [(_ & ? & _)|[_ Ht'']]; [done|].
           eauto.
        -- intros t'' b'' p' todo' Hne' Ht''.
           apply list_lookup_insert_Some in Ht'' as [(_ & Heq & _)|[_ Ht'']].
           ++ simplify_eq. apply lookup_lt_Some in Hm. lia.
           ++ eauto.
  - (* the builder swaps its finished router in *)
    simplify_eq.
    destruct (Hbuild _ _ _ _ Ht) as ((m & Hm & Hfold) & Hpr & Hps & Hpb).
    simpl in Hfold. split; simpl.
    + exists m. split; [done|]. by exists b.
    + intros t' p' seen Ht'.
      apply list_lookup_insert_Some in Ht' as [(_ & ? & _)|[_ Ht']]; [done|].
      eauto.
    + intros t' m' Ht'.
      apply list_lookup_insert_Some in Ht' as [(_ & ? & _)|[_ Ht']]; [done|].
      eauto.
    + intros t' b' p' todo Ht'.
      apply list_lookup_insert_Some in Ht' as [(_ & ? & _)|[Hne Ht']]; [done|].
      destruct (Hbuild _ _ _ _ Ht') as (Hm' & Hpr' & Hps' & Hpb').
      split; [done|split; [|split]].
      * intros ->. by eapply (Hpb' t).
      * intros t'' p'' seen Ht''.
        apply list_lookup_insert_Some in Ht'' as [(_ & ? & _)|[_ Ht'']]; [done|].
        eauto.
      * intros t'' b'' p'' todo' Hne' Ht''.
        apply list_lookup_insert_Some in Ht'' as [(_ & ? & _)|[_ Ht'']]; [done|].
        eauto.
  - (* the builder makes one registration *)
    destruct (Hbuild _ _ _ _ Ht) as ((m & Hm & Hfold) & Hpr & Hps & Hpb).
    rewrite Hm in Hstep. simplify_eq. simpl in Hfold. split; simpl.
    + exists mr. split; [by rewrite list_lookup_insert_ne|done].
    + intros t' p' seen Ht'.
      apply list_lookup_insert_Some in Ht' as [(_ & ? & _)|[_ Ht']]; [done|].
      destruct (Hserve _ _ _ Ht') as (m' & Hm' & ?).
      exists m'. split; [|done].
      rewrite list_lookup_insert_ne; [done|]. by eapply Hps.
    + intros t' m' Ht'.
      apply list_lookup_insert_Some in Ht' as [(_ & ? & _)|[_ Ht']]; [done|].
      eauto.
    + intros t' b' p' todo' Ht'.
      apply list_lookup_insert_Some in Ht' as [(<- & Heq & _)|[Hne Ht']].
      * simplify_eq. split; [|split; [done|split]].
        -- exists (op m). split; [|done].
           apply list_lookup_insert_eq. by eapply lookup_lt_Some.
        -- intros t' p'' seen Ht'.
           apply list_lookup_insert_Some in Ht' as [(_ & ? & _)|[_ Ht']]; [done|].
           eauto.
        -- intros t' b'' p'' todo'' Hne Ht'.
           rewrite list_lookup_insert_ne in Ht' by done. eauto.
      * destruct (Hbuild _ _ _ _ Ht') as ((m' & Hm' & Hfold') & Hpr' & Hps' & Hpb').
        assert (p' ≠ p) by (by eapply Hpb').
        split; [|split; [done|split]].
        -- exists m'. split; [|done]. by rewrite list_lookup_insert_ne.
        -- intros t'' p'' seen Ht''.
           apply list_lookup_insert_Some in Ht'' as [(_ & ? & _)|[_ Ht'']]; [done|].
           eauto.
        -- intros t'' b'' p'' todo'' Hne' Ht''.
           apply list_lookup_insert_Some in Ht'' as [(_ & Heq & _)|[_ Ht'']].
           ++ by simplify_eq.
           ++ eauto.
  - (* a request reads the active router *)
    simplify_eq. unfold Swapper.setThread. split; simpl.
    + eauto.
    + intros t' p seen Ht'.
      apply list_lookup_insert_Some in Ht' as [(_ & Heq & _)|[_ Ht']]; [|eauto].
      simplify_eq. exists mr. by rewrite take_0.
    + intros t' m Ht'.
      apply list_lookup_insert_Some in Ht' as [(_ & ? & _)|[_ Ht']]; [done|].
      eauto.
    + intros t' b p todo Ht'.
      apply list_lookup_insert_Some in Ht' as [(_ & ? & _)|[Hne Ht']]; [done|].
      destruct (Hbuild _ _ _ _ Ht') as (Hm' & Hpr' & Hps' & Hpb').
      split; [done|split; [done|split]].
      * intros t'' p'' seen Ht''.
        apply list_lookup_insert_Some in Ht'' as [(_ & Heq & _)|[_ Ht'']]; [|eauto].
        by simplify_eq.
      * intros t'' b'' p'' todo' Hne' Ht''.
        apply list_lookup_insert_Some in Ht'' as [(_ & ? & _)|[_ Ht'']]; [done|].
        eauto.
  - (* a request reads one more route, or the end of the table *)
    destruct (Hserve _ _ _ Ht) as (m & Hm & Hcm & Hseen).
    rewrite Hm in Hstep.
    destruct (mux.routes m !! length seen) as [rt|] eqn:Hrt;
      simplify_eq; unfold Swapper.setThread; split; simpl.
    + eauto.
    + intros t' p' seen' Ht'.
      apply list_lookup_insert_Some in Ht' as [(_ & Heq & _)|[_ Ht']]; [|eauto].
      simplify_eq. exists m. split; [done|split; [done|]].
      rewrite length_app. simpl. rewrite Nat.add_1_r.
      by rewrite (take_S_r _ _ _ Hrt), <- Hseen.
    + intros t' m' Ht'.
      apply list_lookup_insert_Some in Ht' as [(_ & ? & _)|[_ Ht']]; [done|].
      eauto.
    + intros t' b p' todo Ht'.
      apply list_lookup_insert_Some in Ht' as [(_ & ? & _)|[Hne Ht']]; [done|].
      destruct (Hbuild _ _ _ _ Ht') as (Hm' & Hpr' & Hps' & Hpb').
      split; [done|split; [done|split]].
      * intros t'' p'' seen' Ht''.
        apply list_lookup_insert_Some in Ht'' as [(_ & Heq & _)|[_ Ht'']]; [|eauto].
        simplify_eq. by eapply Hps'.
      * intros t'' b'' p'' todo' Hne' Ht''.
        apply list_lookup_insert_Some in Ht'' as [(_ & ? & _)|[_ Ht'']]; [done|].
        eauto.
    + eauto.
    + intros t' p' seen' Ht'.
      apply list_lookup_insert_Some in Ht' as [(_ & ? & _)|[_ Ht']]; [done|].
      eauto.
    + intros t' m' Ht'.
      apply list_lookup_insert_Some in Ht' as [(_ & Heq & _)|[_ Ht']]; [|eauto].
      simplify_eq. apply lookup_ge_None in Hrt.
      rewrite take_ge in Hseen by done. rewrite Hseen. by destruct m.
    + intros t' b p' todo Ht'.
      apply list_lookup_insert_Some in Ht' as [(_ & ? & _)|[Hne Ht']]; [done|].
      destruct (Hbuild _ _ _ _ Ht') as (Hm' & Hpr' & Hps' & Hpb').
      split; [done|split; [done|split]].
      * intros t'' p'' seen' Ht''.
        apply list_lookup_insert_Some in Ht'' as [(_ & ? & _)|[_ Ht'']]; [done|].
        eauto.
      * intros t'' b'' p'' todo' Hne' Ht''.
        apply list_lookup_insert_Some in Ht'' as [(_ & ? & _)|[_ Ht'']]; [done|].
        eauto.
Qed.

Lemma swapInv_reach (enableProfiler : bool) (calls : list Swapper.call)
    (sched : list nat) (st : Swapper.state) :
  run (Swapper.init wrap profilerRoutes s enableProfiler calls) sched = Some st →
  swapInv st.
Proof.
  revert st. induction sched as [|t sched IH] using rev_ind; intros st Hrun.
  - simpl in Hrun. simplify_eq. apply swapInv_init.
  - rewrite swap_run_app in Hrun.
    destruct (run _ sched) as [st0|]; [|done]. simpl in Hrun.
    destruct (step st0 t) as [st1|] eqn:Hstep; [|done]. simplify_eq.
    eapply swapInv_step; eauto.
Qed.

(** C9: whatever calls of [EnableProfiler], [DisableProfiler] and requests
    run together after [InitRouter], and however their steps interleave,
    the table a request has read when its dispatch ends is a finished one,
    that of [createMux] or that of [createMux] followed by
    [profilerSetup]; and while the request is reading, the router it reads
    is such a finished table and what it has read so far is a prefix of
    its routes. No request reads a table with part of its routes
    missing. *)
Theorem serve_reads_complete_table (enableProfiler : bool)
    (calls : list Swapper.call) (sched : list nat) (st : Swapper.state) (t : nat) :
  run (Swapper.init wrap profilerRoutes s enableProfiler calls) sched = Some st →
  (∀ m, Swapper.threads st !! t = Some (Swapper.TServe (Swapper.SDone m)) →
        m = createMux wrap s
        ∨ m = profilerSetup profilerRoutes (createMux wrap s))
  ∧ (∀ p seen,
       Swapper.threads st !! t = Some (Swapper.TServe (Swapper.SScan p seen)) →
       ∃ m, Swapper.heap st !! p = Some m
            ∧ (m = createMux wrap s
               ∨ m = profilerSetup profilerRoutes (createMux wrap s))
            ∧ seen = take (length seen) (mux.routes m)).
Proof.
  intros Hrun. destruct (swapInv_reach _ _ _ _ Hrun) as [_ Hserve Hobs _].
  split.
  - intros m Ht. destruct (Hobs _ _ Ht) as [[|] ->]; [by right|by left].
  - intros p seen Ht. destruct (Hserve _ _ _ Ht) as (m & Hm & [b ->] & Hseen).
    eexists. split; [done|]. split; [|done]. destruct b; [by right|by left].
Qed.

End swapping.

(** ** The not-found handler and the error translation *)

(** C5: a request whose path matches neither form of any registered route
    is answered by the not-found handler, which [createMux] installs both as
    the last route, under [versionMatcher] followed by "/{path:.*}", and as
    the [NotFoundHandler] of the table. The handler is the error handler
    made from the not-found error "page not found": it writes status 404
    with a structured body of code and message, which is not the plain 404
    of the transport. *)
Theorem unmatched_request_not_found `{MT : mux.Matcher}
    (wrap : Server → APIFunc → APIFunc) (s : Server) (r : http.Request) :
  (∀ R, R ∈ allRoutes s →
     mux.pathMatch (versionMatcher +:+ router.Path R) (http.URL_Path r) = None
     ∧ mux.pathMatch (router.Path R) (http.URL_Path r) = None) →
  mux.ServeHTTP (createMux wrap s) r
  = [WriteHeader 404%Z; Write (ErrorResponse 404%Z "page not found")]
  ∧ (∃ r', mux.ServeHTTP (createMux wrap s) r = MakeErrorHandler notFoundErr r')
  ∧ GetHTTPErrorStatusCode notFoundErr = 404%Z
  ∧ mux.ServeHTTP (createMux wrap s) r ≠ http.NotFound r
  ∧ last (mux.routes (createMux wrap s))
    = Some {| mux.tpl := versionMatcher +:+ "/{path:.*}";
              mux.methods := None;
              mux.handler := MakeErrorHandler notFoundErr |}
  ∧ mux.NotFoundHandler (createMux wrap s) = Some (MakeErrorHandler notFoundErr).
Proof.
  intros Hno. destruct (ServeHTTP_unmatched wrap s r Hno) as [r' Hr'].
  repeat split.
  - by rewrite Hr'.
  - by exists r'.
  - rewrite Hr'. simpl. unfold http.NotFound. discriminate.
  - rewrite createMux_routes. by rewrite last_snoc.
Qed.

(** ** The example server *)

Lemma createMux_two_forms_witness :
  allRoutes exServer !! 0%nat = Some infoRoute
  ∧ mux.routes (createMux noMiddlewares exServer) !! 0%nat
    = Some {| mux.tpl := "/v{version:[0-9.]+}/info";
              mux.methods := Some ["GET"];
              mux.handler := makeHTTPHandler noMiddlewares exServer infoHandler |}
  ∧ mux.routes (createMux noMiddlewares exServer) !! 1%nat
    = Some {| mux.tpl := "/info";
              mux.methods := Some ["GET"];
              mux.handler := makeHTTPHandler noMiddlewares exServer infoHandler |}.
Proof.
  split; [reflexivity|].
  destruct (createMux_two_forms (MT := literalMatcher) noMiddlewares exServer
              0 infoRoute eq_refl) as (_ & Hv & Hb & _).
  split; [exact Hv|exact Hb].
Defined.

Lemma unmatched_request_not_found_witness :
  mux.ServeHTTP (MT := literalMatcher) (createMux noMiddlewares exServer) unknownRequest
  = [WriteHeader 404%Z; Write (ErrorResponse 404%Z "page not found")].
Proof.
  apply (unmatched_request_not_found (MT := literalMatcher)
           noMiddlewares exServer unknownRequest).
  intros R HR. apply list_elem_of_singleton in HR as ->. split; reflexivity.
Defined.

Lemma makeHTTPHandler_error_logging_witness :
  ∃ errFormat : string,
    makeHTTPHandler noMiddlewares exServer failingHandler unknownRequest
    = [] ++ [Logf ErrorLevel ("Handler for %s %s returned error: " +:+ errFormat)
               [AStr "GET"; AStr "/v1.40/unknown"; AErr errBoom]]
         ++ MakeErrorHandler errBoom unknownRequest
    ∧ (GetHTTPErrorStatusCode errBoom = 500%Z → errFormat = "%+v")
    ∧ (GetHTTPErrorStatusCode errBoom ≠ 500%Z → errFormat = "%v").
Proof.
  apply (makeHTTPHandler_error_logging noMiddlewares exServer failingHandler
           unknownRequest [] errBoom).
  reflexivity.
Defined.

Lemma Close_attempts_all_witness :
  (Close closeOnce exServer [tcpListener]).2
  = [tcpListener; tcpListener; unixListener]
  ∧ Logp ErrorLevel [AErr errClosed] ∈ (Close closeOnce exServer [tcpListener]).1.
Proof.
  destruct (Close_attempts_all closeOnce exServer [tcpListener]) as (Hc & Hlog & _).
  split; [exact Hc|].
  apply (Hlog 0%nat {| srv_Addr := "127.0.0.1:2375"; l := tcpListener |} errClosed);
    reflexivity.
Defined.

Lemma run_schedEarly : run exServer init schedEarly = Some afterEarly.
Proof. vm_compute. reflexivity. Qed.

Lemma run_schedUnixFirst : run exServer init schedUnixFirst = Some afterUnixFirst.
Proof. vm_compute. reflexivity. Qed.

Lemma run_schedMixed : run exServer init schedMixed = Some afterMixed.
Proof. vm_compute. reflexivity. Qed.

Lemma run_schedClean : run exServer init schedClean = Some afterClean.
Proof. vm_compute. reflexivity. Qed.

(** C1 as stated does not hold: after [schedEarly], [Wait] has sent the
    error of the tcp server and returned while the goroutine of the unix
    server is still inside [srv.Serve()]. *)
Lemma Wait_join_counterexample :
  ¬ (∀ (s : Server) (sched : list label) (st : state) (r : option error),
       run s init sched = Some st →
       main st = MDone r →
       ∀ i, (i < length (servers s))%nat → gs st !! i = Some GDone).
Proof.
  intros Hjoin.
  assert (Hmain : main afterEarly = MDone (Some errTooMany)) by reflexivity.
  assert (Hserving : gs afterEarly !! 1%nat = Some GServing) by reflexivity.
  assert (Hlt : (1 < length (servers exServer))%nat) by (vm_compute; lia).
  specialize (Hjoin exServer schedEarly afterEarly _ run_schedEarly Hmain 1%nat Hlt).
  rewrite Hserving in Hjoin. discriminate.
Qed.

Lemma Wait_returns_after_witness :
  run exServer init schedClean = Some afterClean
  ∧ main afterClean = MDone None
  ∧ ∀ i, (i < length (servers exServer))%nat → gs afterClean !! i = Some GDone.
Proof.
  split; [exact run_schedClean|]. split; [reflexivity|].
  apply (Wait_returns_after exServer schedClean afterClean None
           run_schedClean eq_refl).
Defined.

Lemma Wait_first_error_witness :
  run exServer init schedUnixFirst = Some afterUnixFirst
  ∧ Some errUnix ∈ waitChan afterUnixFirst
  ∧ Some errUnix = firstError (map snd (sent afterUnixFirst)).
Proof.
  assert (Hv : Some errUnix ∈ waitChan afterUnixFirst) by (by left).
  split; [exact run_schedUnixFirst|]. split; [exact Hv|].
  apply (Wait_first_error exServer schedUnixFirst afterUnixFirst (Some errUnix)
           run_schedUnixFirst Hv).
Defined.

(** The same two failures, sent in the other order, give the other error:
    the order of completion decides, not the order of registration. *)
Example completion_order_decides :
  (waitChan <$> run exServer init schedUnixFirst) = Some [Some errUnix]
  ∧ (waitChan <$> run exServer init schedTcpFirst) = Some [Some errTooMany].
Proof. split; vm_compute; reflexivity. Qed.

Lemma closed_listener_is_clean_witness :
  run exServer init schedMixed = Some afterMixed
  ∧ sent afterMixed = [(0%nat, None); (1%nat, Some errUnix)]
  ∧ waitChan afterMixed = [Some errUnix]
  ∧ Contains (Error errUnix) "use of closed network connection" = false.
Proof.
  split; [exact run_schedMixed|]. split; [reflexivity|]. split; [reflexivity|].
  destruct (closed_listener_is_clean exServer schedMixed afterMixed run_schedMixed)
    as (_ & _ & _ & Hwait & _).
  apply (Hwait errUnix). by left.
Defined.

Lemma Wait_sends_once_witness :
  run exServer init schedClean = Some afterClean ∧ waitChan afterClean = [None].
Proof.
  split; [exact run_schedClean|].
  apply (Wait_sends_once exServer schedClean afterClean run_schedClean).
Defined.

Lemma run_schedSwap :
  Swapper.run noMiddlewares [debugRoute] exServer
    (Swapper.init noMiddlewares [debugRoute] exServer false exCalls) schedSwap
  = Some afterSwap.
Proof. vm_compute. reflexivity. Qed.

Lemma serve_reads_complete_table_witness :
  Swapper.run noMiddlewares [debugRoute] exServer
    (Swapper.init noMiddlewares [debugRoute] exServer false exCalls) schedSwap
  = Some afterSwap
  ∧ Swapper.threads afterSwap !! 0%nat
    = Some (Swapper.TServe (Swapper.SDone (createMux noMiddlewares exServer)))
  ∧ Swapper.threads afterSwap !! 2%nat
    = Some (Swapper.TServe
              (Swapper.SDone
                 (profilerSetup [debugRoute] (createMux noMiddlewares exServer))))
  ∧ ∀ m, Swapper.threads afterSwap !! 2%nat
         = Some (Swapper.TServe (Swapper.SDone m)) →
         m = createMux noMiddlewares exServer
         ∨ m = profilerSetup [debugRoute] (createMux noMiddlewares exServer).
Proof.
  split; [exact run_schedSwap|].
  split; [vm_compute; reflexivity|]. split; [vm_compute; reflexivity|].
  apply (serve_reads_complete_table noMiddlewares [debugRoute] exServer false
           exCalls schedSwap afterSwap 2%nat run_schedSwap).
Defined.

(** * Further properties *)

(** ** Setting the server up: [Accept], [Close], [createMux] *)

Section setup.

Context `{HU : HttpUtils}.
Variable wrap : Server → APIFunc → APIFunc.
Variable profilerRoutes : list mux.Route.
Variable Listener_Close : list Listener → Listener → option error.

Lemma Accept_loop (addr : string) (lns : list Listener) (acc : list HTTPServer) :
  fold_left (λ acc ln, acc ++ [{| srv_Addr := addr; l := ln |}]) lns acc
  = acc ++ map (λ ln, {| srv_Addr := addr; l := ln |}) lns.
Proof.
  revert acc. induction lns as [|ln lns IH]; intros acc; simpl.
  - by rewrite app_nil_r.
  - by rewrite IH, <- app_assoc.
Qed.

(** X1: [Accept] adds one server per listener given, in the order given
    and after the servers already there, each with the address given and
    its own listener; with no listener it adds nothing. It leaves the
    configuration, the routers, the swapper and the middlewares alone. *)
Theorem Accept_servers (s : Server) (addr : string) (lns : list Listener) :
  servers (Accept s addr lns)
  = servers s ++ map (λ ln, {| srv_Addr := addr; l := ln |}) lns
  ∧ length (servers (Accept s addr lns)) = (length (servers s) + length lns)%nat
  ∧ cfg (Accept s addr lns) = cfg s
  ∧ routers (Accept s addr lns) = routers s
  ∧ routerSwapper (Accept s addr lns) = routerSwapper s
  ∧ middlewares (Accept s addr lns) = middlewares s.
Proof.
  simpl. rewrite Accept_loop. repeat split.
  by rewrite length_app, length_map.
Qed.

(** X2: every listener handed to [Accept] is closed by [Close]: after
    [Accept], [Close] calls [Close] on the listeners of the servers there
    before and then on the listeners given, in the order given, whatever any
    of these calls returns. *)
Theorem Close_after_Accept (s : Server) (addr : string) (lns : list Listener)
    (closed : list Listener) :
  (Close Listener_Close (Accept s addr lns) closed).2
  = closed ++ map l (servers s) ++ lns.
Proof.
  assert (Hc : (Close Listener_Close (Accept s addr lns) closed).2
               = closed ++ map l (servers (Accept s addr lns)))
    by apply (Close_loop Listener_Close (servers (Accept s addr lns)) [] closed).
  rewrite Hc. simpl. rewrite Accept_loop, map_app, map_map.
  simpl. by rewrite map_id.
Qed.

(** X3: when no call to [Close] on a listener fails, [Close] logs
    nothing. *)
Theorem Close_quiet (s : Server) (closed : list Listener) :
  (∀ h ln, Listener_Close h ln = None) →
  (Close Listener_Close s closed).1 = [].
Proof.
  intros Hfine.
  assert (Honly : ∀ ev, ev ∈ (Close Listener_Close s closed).1 →
            ev ∈ [] ∨ ∃ i srv e,
              servers s !! i = Some srv
              ∧ Listener_Close (closed ++ map l (take i (servers s))) (l srv) = Some e
              ∧ ev = Logp ErrorLevel [AErr e])
    by apply (Close_loop Listener_Close (servers s) [] closed).
  destruct (Close Listener_Close s closed).1 as [|ev evs]; [done|].
  destruct (Honly ev) as [Hin|(i & srv & e & _ & He & _)].
  - by left.
  - by apply elem_of_nil in Hin.
  - by rewrite Hfine in He.
Qed.

Lemma Close_loop_all_fail (srvs : list HTTPServer) (evs : list (event error))
    (closed : list Listener) :
  (∀ h ln, ln ∈ h → is_Some (Listener_Close h ln)) →
  (∀ srv, srv ∈ srvs → l srv ∈ closed) →
  length
    (fold_left
       (λ '(evs, closed) srv,
          let '(err, closed) := HTTPServer_Close Listener_Close srv closed in
          match err with
          | Some err => (evs ++ [Logp ErrorLevel [AErr err]], closed)
          | None => (evs, closed)
          end)
       srvs (evs, closed)).1
  = (length evs + length srvs)%nat.
Proof.
  intros Hfail. revert evs closed.
  induction srvs as [|srv srvs IH]; intros evs closed Hin; [simpl; lia|].
  simpl in IH |- *.
  destruct (Hfail closed (l srv)) as [e He]; [apply Hin; by left|].
  rewrite He. rewrite IH.
  - rewrite length_app. simpl. lia.
  - intros srv' Hsrv'. apply elem_of_app. left. apply Hin. by right.
Qed.

(** X4: with listeners whose [Close] fails once they have been closed, a
    second [Close] of the server still calls [Close] on every listener and
    logs one error for each of them. *)
Theorem Close_again (s : Server) (closed : list Listener) :
  (∀ h ln, ln ∈ h → is_Some (Listener_Close h ln)) →
  let closed1 := (Close Listener_Close s closed).2 in
  (Close Listener_Close s closed1).2
  = closed ++ map l (servers s) ++ map l (servers s)
  ∧ length (Close Listener_Close s closed1).1 = length (servers s).
Proof.
  intros Hfail closed1.
  assert (Hclosed1 : closed1 = closed ++ map l (servers s))
    by apply (Close_loop Listener_Close (servers s) [] closed).
  assert (Hc2 : (Close Listener_Close s closed1).2 = closed1 ++ map l (servers s))
    by apply (Close_loop Listener_Close (servers s) [] closed1).
  split.
  - rewrite Hc2, Hclosed1. by rewrite <- app_assoc.
  - unfold Close. rewrite Close_loop_all_fail; [done|done|].
    intros srv Hsrv. rewrite Hclosed1. apply elem_of_app. right.
    apply list_elem_of_In, in_map, list_elem_of_In. done.
Qed.

(** X5: with no route registered (no router, or routers without routes)
    the table [createMux] builds holds the not-found wildcard alone, and
    its not-found handler is installed. *)
Theorem createMux_no_routes (s : Server) :
  allRoutes s = [] →
  mux.routes (createMux wrap s) = [notFoundEntry]
  ∧ mux.NotFoundHandler (createMux wrap s) = Some (MakeErrorHandler notFoundErr).
Proof.
  intros Hno. rewrite createMux_routes, Hno. done.
Qed.

(** X6: the table of [createMux] holds nothing but the two forms of the
    registered routes and the not-found wildcard: an entry without a method
    matcher is the wildcard, and an entry with a method matcher is the
    versioned or the bare form of a registered route, restricted to the one
    method of that route and answered by the adapter of its handler. *)
Theorem createMux_entries (s : Server) (rt : mux.Route) :
  rt ∈ mux.routes (createMux wrap s) →
  (mux.methods rt = None → rt = notFoundEntry)
  ∧ (∀ ms, mux.methods rt = Some ms →
       ∃ R, R ∈ allRoutes s
            ∧ ms = [router.Method R]
            ∧ mux.handler rt = makeHTTPHandler wrap s (router.Handler R)
            ∧ (mux.tpl rt = versionMatcher +:+ router.Path R
               ∨ mux.tpl rt = router.Path R)).
Proof.
  rewrite createMux_routes. intros Hin.
  apply elem_of_app in Hin as [Hin|Hin].
  - apply list_elem_of_In, in_flat_map in Hin as (R & HR & Hrt).
    apply list_elem_of_In in HR.
    simpl in Hrt. destruct Hrt as [<-|[<-|[]]]; (split; [done|]);
      intros ms [= <-]; exists R; simpl; eauto.
  - apply list_elem_of_singleton in Hin as ->. split; [done|]. done.
Qed.

Lemma profilerSetup_fields (rts : list mux.Route) (m : mux.Router) :
  mux.routes (fold_left addRoute rts m) = mux.routes m ++ rts
  ∧ mux.NotFoundHandler (fold_left addRoute rts m) = mux.NotFoundHandler m.
Proof.
  revert m. induction rts as [|rt rts IH]; intros m; simpl.
  - by rewrite app_nil_r.
  - destruct (IH (addRoute m rt)) as [-> ->]. simpl.
    by rewrite <- app_assoc.
Qed.


(** X8: [InitRouter] adds the routers given after those registered
    before and leaves the servers, the configuration and the middlewares
    alone; the table it installs has, for route number [i] of the old and
    the new routers together, its versioned form at place [2*i] and its bare
    form at place [2*i+1], so a later call never drops or moves the routes
    of an earlier one. *)
Theorem InitRouter_accumulates (s : Server) (enableProfiler : bool)
    (rts : list router.Router) (i : nat) (R : router.Route) :
  (allRoutes s ++ concat (map router.Routes rts)) !! i = Some R →
  routers (InitRouter wrap profilerRoutes s enableProfiler rts) = routers s ++ rts
  ∧ servers (InitRouter wrap profilerRoutes s enableProfiler rts) = servers s
  ∧ middlewares (InitRouter wrap profilerRoutes s enableProfiler rts) = middlewares s
  ∧ ∃ m, routerSwapper (InitRouter wrap profilerRoutes s enableProfiler rts) = Some m
         ∧ mux.tpl <$> mux.routes m !! (2 * i)%nat
           = Some (versionMatcher +:+ router.Path R)
         ∧ mux.tpl <$> mux.routes m !! (2 * i + 1)%nat = Some (router.Path R)
         ∧ mux.methods <$> mux.routes m !! (2 * i)%nat = Some (Some [router.Method R])
         ∧ mux.methods <$> mux.routes m !! (2 * i + 1)%nat
           = Some (Some [router.Method R]).
Proof.
  intros Hi. split; [done|]. split; [done|]. split; [done|].
  set (s' := {| cfg := cfg s; servers := servers s; routers := routers s ++ rts;
                routerSwapper := routerSwapper s; middlewares := middlewares s |}).
  assert (Hall : allRoutes s' = allRoutes s ++ concat (map router.Routes rts)).
  { unfold allRoutes. simpl. by rewrite map_app, concat_app. }
  rewrite <- Hall in Hi.
  destruct (lookup_pairs (versionedEntry wrap s') (bareEntry wrap s') _ _ _ Hi)
    as [Hv Hb].
  assert (Hcm : ∀ j rt,
            flat_map (λ r, [versionedEntry wrap s' r; bareEntry wrap s' r])
                     (allRoutes s') !! j = Some rt →
            mux.routes (createMux wrap s') !! j = Some rt).
  { intros j rt Hj. rewrite createMux_routes. by apply lookup_app_l_Some. }
  apply Hcm in Hv, Hb.
  exists (if enableProfiler then profilerSetup profilerRoutes (createMux wrap s')
          else createMux wrap s').
  split; [by destruct enableProfiler|].
  assert (Hkeep : ∀ j rt,
            mux.routes (createMux wrap s') !! j = Some rt →
            mux.routes (if enableProfiler
                        then profilerSetup profilerRoutes (createMux wrap s')
                        else createMux wrap s') !! j = Some rt).
  { intros j rt Hj. destruct enableProfiler; [|done].
    unfold profilerSetup.
    destruct (profilerSetup_fields profilerRoutes (createMux wrap s')) as [-> _].
    by apply lookup_app_l_Some. }
  rewrite (Hkeep _ _ Hv), (Hkeep _ _ Hb). done.
Qed.

(** X9: what the adapter emits begins with what the wrapped handler
    emitted, unchanged; it adds nothing when the handler returns no error,
    and adds the log line and the error response when it returns one. *)
Theorem makeHTTPHandler_output (s : Server) (handler : APIFunc) (r : http.Request) :
  let res := wrap s handler {| UAString := http.Header_Get r "User-Agent" |} r
               (handlerVars r) in
  ∃ rest, makeHTTPHandler wrap s handler r = res.1 ++ rest
          ∧ (rest = [] ↔ res.2 = None).
Proof.
  intros res. unfold makeHTTPHandler. fold res.
  destruct res as [out [err|]]; simpl.
  - eexists. split; [done|]. split; [done|done].
  - exists []. by rewrite app_nil_r.
Qed.

End setup.

(** ** More on the serving goroutines and [Wait] *)

Section serving.

Context `{HU : HttpUtils}.
Variable s : Server.

Lemma prefix_spec (p t : string) :
  String.prefix p t = true ↔ ∃ b, t = p +:+ b.
Proof.
  revert p. induction t as [|c t IH]; intros [|a p]; simpl.
  - split; [by exists ""|done].
  - split; [done|]. by intros [b Hb].
  - split; [by eexists|done].
  - destruct (Ascii.ascii_dec a c) as [->|Hne].
    + rewrite IH. split; intros [b Hb]; exists b;
        [by subst t|simpl in Hb; by injection Hb].
    + split; [done|]. intros [b Hb]. simpl in Hb. by injection Hb.
Qed.

(** [Contains] finds its second argument wherever it stands in the first. *)
Lemma Contains_spec (t sub : string) :
  Contains t sub = true ↔ ∃ a b, t = a +:+ sub +:+ b.
Proof.
  induction t as [|c t IH].
  - change (Contains "" sub) with (String.prefix sub "" || false).
    rewrite orb_false_r, prefix_spec. split.
    + intros [b Hb]. by exists "", b.
    + intros (a & b & Hab). destruct a; [by exists b|done].
  - change (Contains (String c t) sub)
      with (String.prefix sub (String c t) || Contains t sub).
    rewrite orb_true_iff, prefix_spec, IH. split.
    + intros [[b Hb]|(a & b & Hab)].
      * by exists "", b.
      * exists (String c a), b. simpl. by rewrite Hab.
    + intros (a & b & Hab). destruct a as [|c' a]; simpl in Hab.
      * left. by exists b.
      * right. exists a, b. by injection Hab.
Qed.

(** X10: a serving goroutine sends nil in place of the error of
    [srv.Serve()] exactly when the message of the error has the text
    "use of closed network connection" somewhere in it, whatever comes
    before and after; any other error it sends as it is, and nil it sends
    as nil. *)
Theorem serveOutcome_closed (e : error) :
  (serveOutcome (Some e) = None
   ↔ ∃ pre post,
       Error e = pre +:+ "use of closed network connection" +:+ post)
  ∧ (serveOutcome (Some e) ≠ None → serveOutcome (Some e) = Some e)
  ∧ serveOutcome None = None.
Proof.
  unfold serveOutcome, closedMsg. rewrite <- Contains_spec.
  destruct (Contains (Error e) _); repeat split; done.
Qed.

(** X11: no goroutine sends twice, every send is that of a server the
    caller has spawned a goroutine for, and [chErrors] never holds more
    values than the servers it was made for. *)
Theorem chErrors_within_capacity (sched : list label) (st : state) :
  run s init sched = Some st →
  NoDup (map fst (sent st))
  ∧ (∀ i o, (i, o) ∈ sent st → (i < length (servers s))%nat)
  ∧ (length (chErrors st) ≤ length (sent st))%nat
  ∧ (length (sent st) ≤ length (servers s))%nat.
Proof.
  intros Hrun.
  destruct (shapeInv_reach _ _ _ Hrun) as [Hgs Hsp (recvd & Hsent & _) _].
  destruct (sentInv_reach _ _ _ Hrun) as [Hnd Hdone].
  destruct (sent_bound _ _ _ Hrun) as [Hle _].
  split; [done|]. split; [|split; [|done]].
  - intros i o Hin.
    assert (Hi : i ∈ map fst (sent st)).
    { apply list_elem_of_In, in_map_iff. exists (i, o).
      split; [done|]. by apply list_elem_of_In. }
    apply Hdone, lookup_lt_Some in Hi.
    destruct (main st) as [k| | |]; [|lia..].
    specialize (Hsp k eq_refl). lia.
  - apply (f_equal length) in Hsent.
    rewrite length_map, length_app in Hsent. lia.
Qed.

(** X12: without servers no goroutine is ever spawned and nothing is
    ever sent on [chErrors]; [serveAPI] returns nil without receiving, and
    [Wait] sends nil. *)
Theorem Wait_no_servers :
  servers s = [] →
  (∃ st, run s init [LMain; LMain; LMain] = Some st
         ∧ main st = MDone None ∧ waitChan st = [None] ∧ logs st = [])
  ∧ ∀ sched st, run s init sched = Some st →
      gs st = [] ∧ sent st = []
      ∧ ∀ r, main st = MDone r → r = None.
Proof.
  intros Hno. split.
  - eexists. simpl. unfold stepMain. simpl. rewrite Hno. simpl. done.
  - intros sched st Hrun.
    destruct (shapeInv_reach _ _ _ Hrun) as [Hgs Hsp _ _].
    destruct (sent_bound _ _ _ Hrun) as [Hle _].
    rewrite Hno in Hle, Hgs, Hsp. simpl in Hle, Hgs.
    assert (Hsent : sent st = []) by (destruct (sent st); [done|simpl in Hle; lia]).
    split; [|split; [done|]].
    + destruct (main st) as [k| | |]; [|by destruct (gs st)..].
      specialize (Hsp k eq_refl). simpl in Hsp.
      destruct (gs st); [done|simpl in Hgs; lia].
    + intros r Hr. destruct (returned_value _ _ _ _ Hrun Hr) as [-> _].
      by rewrite Hsent.
Qed.



(** X14: one failing server is enough for [Wait] to report: when the
    [srv.Serve()] of any one server returns an error other than the closed
    listener's, a schedule exists on which [Wait] sends this error and
    returns although no other server has left its [srv.Serve()], or even
    started. *)
Theorem one_failure_suffices (i : nat) (e : error) :
  (i < length (servers s))%nat →
  Contains (Error e) "use of closed network connection" = false →
  ∃ sched st, run s init sched = Some st
              ∧ main st = MDone (Some e)
              ∧ waitChan st = [Some e]
              ∧ ∀ j, (j < length (servers s))%nat → j ≠ i →
                     gs st !! j = Some GStart.
Proof.
  intros Hi He.
  destruct (spawn_phase s (length (servers s))) as (st1 & Hrun1 & Hgs1 & Hch1 & Hm1);
    [done|].
  destruct (lookup_lt_is_Some_2 (servers s) i Hi) as [srv Hsrv].
  assert (Hcap : (0 <? length (servers s))%nat = true) by (apply Nat.ltb_lt; lia).
  assert (Hg : gs st1 !! i = Some GStart).
  { rewrite Hgs1. apply lookup_replicate. by split. }
  assert (Hli : (i < length (gs st1))%nat) by (by eapply lookup_lt_Some).
  change "use of closed network connection" with closedMsg in He.
  assert (Hrun2 : ∃ st2,
            run s st1 [LMain; LGo i; LServeReturn i (Some e); LGo i; LMain; LMain]
            = Some st2
            ∧ main st2 = MDone (Some e)
            ∧ gs st2 = <[i := GDone]> (gs st1)).
  { eexists. split; [|split].
    - simpl. unfold stepMain at 1. rewrite Hm1.
      rewrite (lookup_ge_None_2 (servers s)) by done. simpl.
      unfold stepGo at 1. simpl. rewrite Hg, Hsrv. simpl.
      unfold stepServeReturn. simpl.
      rewrite list_lookup_insert_eq by done. simpl.
      unfold stepGo. simpl. rewrite Hsrv.
      rewrite list_lookup_insert_eq by (by rewrite length_insert).
      rewrite Hch1. simpl. rewrite Hcap. simpl.
      unfold stepMain at 1. simpl. rewrite Hcap, He. simpl.
      unfold stepMain. simpl. done.
    - done.
    - simpl. by rewrite !list_insert_insert_eq. }
  destruct Hrun2 as (st2 & Hrun2 & Hm2 & Hgs2).
  assert (Hrun : run s init (replicate (length (servers s)) LMain
                   ++ [LMain; LGo i; LServeReturn i (Some e); LGo i; LMain; LMain])
                 = Some st2) by (by eapply run_trans).
  destruct (shapeInv_reach _ _ _ Hrun) as [_ _ _ Hwait]. rewrite Hm2 in Hwait.
  eexists _, st2. split; [exact Hrun|]. split; [done|]. split; [done|].
  intros j Hj Hne. rewrite Hgs2, list_lookup_insert_ne by done.
  rewrite Hgs1. apply lookup_replicate. by split.
Qed.

End serving.

(** ** Starting the daemon *)

Section daemon.

Variables (E Common Flags : Type).
Variable env : dockerd.Env E Common Flags.

Local Abbreviation runDaemon := (dockerd.runDaemon env).

(** X19: whatever the flags, the platform and the service, [runDaemon]
    starts the daemon at most once; it notifies of the shutdown exactly when
    it has started the daemon, right after and with the error [start]
    returned, which is also what it returns; and with the version flag, with
    a service that asks to stop, or with a failing [initService], it never
    starts the daemon. *)
Theorem runDaemon_start_once (opts : dockerd.daemonOptions Common Flags) :
  (∀ o, dockerd.Start o ∈ (runDaemon opts).1 →
     dockerd.version opts = false
     ∧ dockerd.initService env = (false, None)
     ∧ (runDaemon opts).2 = dockerd.Returned (dockerd.start env o)
     ∧ (runDaemon opts).1
       = [dockerd.NewDaemonCli; dockerd.InitService; dockerd.Start o;
          dockerd.NotifyShutdown (dockerd.start env o)])
  ∧ (∀ err, dockerd.NotifyShutdown err ∈ (runDaemon opts).1 →
       ∃ o, dockerd.Start o ∈ (runDaemon opts).1).
Proof.
  unfold dockerd.runDaemon.
  destruct (dockerd.version opts) eqn:Hv; simpl.
  - split.
    + intros o Hin. apply list_elem_of_singleton in Hin. done.
    + intros err Hin. apply list_elem_of_singleton in Hin. done.
  - destruct (dockerd.initService env) as [[|] [err|]] eqn:Hinit; simpl; split;
      intros x Hin;
      repeat (apply elem_of_cons in Hin as [Hin|Hin]; try done);
      try (by apply elem_of_nil in Hin).
    + by simplify_eq.
    + eexists. apply elem_of_cons. right. apply elem_of_cons. right. by left.
Qed.

(** X20: the options [runDaemon] starts the daemon with are the
    caller's, but for the pid file and the configuration file, which on
    Windows alone are set from the root directory when they are empty. A pid
    file or a configuration file the caller has set is never replaced, and
    off Windows the options are the caller's as they are. *)
Theorem runDaemon_options (opts o : dockerd.daemonOptions Common Flags) :
  dockerd.Start o ∈ (runDaemon opts).1 →
  dockerd.version o = dockerd.version opts
  ∧ dockerd.common o = dockerd.common opts
  ∧ dockerd.flags o = dockerd.flags opts
  ∧ dockerd.Root (dockerd.daemonConfig o) = dockerd.Root (dockerd.daemonConfig opts)
  ∧ (dockerd.Pidfile (dockerd.daemonConfig opts) ≠ "" →
     dockerd.daemonConfig o = dockerd.daemonConfig opts)
  ∧ (dockerd.configFile opts ≠ "" → dockerd.configFile o = dockerd.configFile opts)
  ∧ (dockerd.GOOS env ≠ "windows" → o = opts)
  ∧ (dockerd.GOOS env = "windows" →
     (dockerd.Pidfile (dockerd.daemonConfig opts) = "" →
      dockerd.Pidfile (dockerd.daemonConfig o)
      = dockerd.Join env (dockerd.Root (dockerd.daemonConfig opts)) "docker.pid")
     ∧ (dockerd.configFile opts = "" →
        dockerd.configFile o
        = dockerd.Join env (dockerd.Root (dockerd.daemonConfig opts))
            "config\daemon.json")).
Proof.
  unfold dockerd.runDaemon.
  destruct (dockerd.version opts) eqn:Hv; simpl.
  { intros Hin. apply list_elem_of_singleton in Hin. done. }
  destruct (dockerd.initService env) as [[|] [err|]]; simpl; intros Hin;
    repeat (apply elem_of_cons in Hin as [Hin|Hin]; try done);
    try (by apply elem_of_nil in Hin).
  injection Hin as ->.
  destruct (String.eqb_spec (dockerd.GOOS env) "windows") as [Hos|Hos].
  - unfold dockerd.windowsDefaults. simpl.
    destruct (String.eqb_spec (dockerd.Pidfile (dockerd.daemonConfig opts)) "")
      as [Hp|Hp];
      destruct (String.eqb_spec (dockerd.configFile opts) "") as [Hc|Hc];
      simpl; repeat split; try done.
  - repeat split; try done.
Qed.

End daemon.

(** ** Middlewares and precedence among routes *)

Section precedence.

Context `{HU : HttpUtils} `{MT : mux.Matcher}.
Variable wrap : Server → APIFunc → APIFunc.

(** X17: middlewares registered one after the other with
    [UseMiddleware] are kept in the order of registration, after those
    already there; the servers, the routers, the configuration and the
    swapper are left alone. *)
Theorem UseMiddleware_order (s : Server) (ms : list Middleware) :
  middlewares (fold_left UseMiddleware ms s) = middlewares s ++ ms
  ∧ servers (fold_left UseMiddleware ms s) = servers s
  ∧ routers (fold_left UseMiddleware ms s) = routers s
  ∧ cfg (fold_left UseMiddleware ms s) = cfg s
  ∧ routerSwapper (fold_left UseMiddleware ms s) = routerSwapper s.
Proof.
  revert s. induction ms as [|m ms IH]; intros s; simpl.
  - by rewrite app_nil_r.
  - destruct (IH (UseMiddleware s m)) as (-> & -> & -> & -> & ->). simpl.
    by rewrite <- app_assoc.
Qed.



End precedence.

(** ** The further properties on the examples *)

Lemma Close_quiet_witness : (Close closeFine exServer []).1 = [].
Proof. apply (Close_quiet closeFine exServer []). reflexivity. Defined.

Lemma closeOnce_fails (h : list Listener) (ln : Listener) :
  ln ∈ h → is_Some (closeOnce h ln).
Proof.
  intros Hin. unfold closeOnce.
  replace (existsb (λ ln', Nat.eqb (l_id ln') (l_id ln)) h) with true; [by eexists|].
  symmetry. apply existsb_exists. exists ln.
  split; [by apply list_elem_of_In|apply Nat.eqb_refl].
Qed.

Lemma Close_again_witness :
  length (Close closeOnce exServer (Close closeOnce exServer []).2).1 = 2%nat.
Proof.
  apply (Close_again closeOnce exServer [] closeOnce_fails).
Defined.

Lemma createMux_no_routes_witness :
  allRoutes bareServer = []
  ∧ mux.routes (createMux noMiddlewares bareServer) = [notFoundEntry].
Proof.
  split; [reflexivity|].
  apply (createMux_no_routes noMiddlewares bareServer eq_refl).
Defined.

Lemma createMux_entries_witness :
  ∃ R, R ∈ allRoutes exServer
       ∧ [ "GET" ] = [router.Method R]
       ∧ mux.handler (bareEntry noMiddlewares exServer infoRoute)
         = makeHTTPHandler noMiddlewares exServer (router.Handler R)
       ∧ (mux.tpl (bareEntry noMiddlewares exServer infoRoute)
          = versionMatcher +:+ router.Path R
          ∨ mux.tpl (bareEntry noMiddlewares exServer infoRoute) = router.Path R).
Proof.
  assert (Hin : bareEntry noMiddlewares exServer infoRoute
                ∈ mux.routes (createMux noMiddlewares exServer)).
  { apply (list_elem_of_lookup_2 _ 1%nat). reflexivity. }
  apply (createMux_entries noMiddlewares exServer _ Hin). reflexivity.
Defined.

Lemma InitRouter_accumulates_witness :
  routers (InitRouter noMiddlewares [debugRoute] bareServer true [exRouter])
  = routers bareServer ++ [exRouter].
Proof.
  apply (InitRouter_accumulates noMiddlewares [debugRoute] bareServer true
           [exRouter] 0%nat infoRoute eq_refl).
Defined.

Lemma serveOutcome_closed_witness :
  serveOutcome (Some errClosed) = None.
Proof.
  destruct (serveOutcome_closed (HU := specHttpUtils) errClosed) as [[_ Hconv] _].
  apply Hconv. exists "accept tcp 127.0.0.1:2375: ", "". reflexivity.
Defined.

Lemma chErrors_within_capacity_witness :
  (length (chErrors afterUnixFirst) ≤ length (sent afterUnixFirst))%nat
  ∧ (length (sent afterUnixFirst) ≤ length (servers exServer))%nat.
Proof.
  apply (chErrors_within_capacity exServer schedUnixFirst afterUnixFirst
           run_schedUnixFirst).
Defined.

Lemma Wait_no_servers_witness :
  ∃ st, run bareServer init [LMain; LMain; LMain] = Some st
        ∧ main st = MDone None ∧ waitChan st = [None] ∧ logs st = [].
Proof. apply (Wait_no_servers bareServer eq_refl). Defined.


Lemma one_failure_suffices_witness :
  ∃ sched st, run exServer init sched = Some st
              ∧ main st = MDone (Some errUnix)
              ∧ waitChan st = [Some errUnix]
              ∧ ∀ j, (j < length (servers exServer))%nat → j ≠ 1%nat →
                     gs st !! j = Some GStart.
Proof.
  apply (one_failure_suffices exServer 1%nat errUnix).
  - vm_compute. lia.
  - vm_compute. reflexivity.
Defined.

Lemma run_schedBack : run exServer init schedBack = Some afterBack.
Proof. vm_compute. reflexivity. Qed.

Lemma send_never_blocks_witness :
  ∃ st', step exServer afterBack (LGo 0) = Some st'.
Proof.
  apply (send_never_blocks exServer schedBack afterBack 0%nat (Some errTooMany)
           run_schedBack).
  reflexivity.
Defined.

Lemma Wait_can_return_witness :
  ∃ sched st, run exServer init sched = Some st
              ∧ main st = MDone (firstError (map serveOutcome [Some errClosed; Some errUnix]))
              ∧ waitChan st = [firstError (map serveOutcome [Some errClosed; Some errUnix])].
Proof.
  apply (Wait_can_return exServer [Some errClosed; Some errUnix]).
  vm_compute. reflexivity.
Defined.

Lemma runDaemon_start_once_witness :
  (dockerd.runDaemon windowsEnv windowsOpts).2
  = dockerd.Returned (Some "listen tcp: address already in use").
Proof.
  destruct (runDaemon_start_once string unit unit windowsEnv windowsOpts)
    as [Hstart _].
  apply (Hstart windowsStarted).
  vm_compute. apply elem_of_cons. right. apply elem_of_cons. right. by left.
Defined.

Lemma runDaemon_options_witness :
  dockerd.Start (E := string) windowsStarted
    ∈ (dockerd.runDaemon windowsEnv windowsOpts).1
  ∧ dockerd.Root (dockerd.daemonConfig windowsStarted) = "C:\ProgramData\docker".
Proof.
  assert (Hin : dockerd.Start (E := string) windowsStarted
                ∈ (dockerd.runDaemon windowsEnv windowsOpts).1).
  { vm_compute. apply elem_of_cons. right. apply elem_of_cons. right. by left. }
  split; [exact Hin|].
  apply (runDaemon_options string unit unit windowsEnv windowsOpts windowsStarted Hin).
Defined.

